(** * Feature engineering and risk events for the metal price pipeline

    A shallow embedding of [scripts/02_feature_engineering.py]: the
    technical indicators computed over one metal's price frame, the risk
    event frame derived from it, the two writers that insert the derived
    rows with [ON CONFLICT (metal_id, date) DO NOTHING], and the driver
    loop of [main].

    Numbers.  A pandas float column holds finite numbers, the two
    infinities and NaN (which is also how a SQL NULL is read).  The
    embedding keeps these four shapes and the IEEE rules that decide
    between them (what a division by zero gives, how NaN spreads, what a
    comparison with NaN answers), and computes on finite values exactly,
    in [Q]: rounding and the sign of zero are left out.  The result of an
    operation is kept in lowest terms ([Qred]).  Equalities between
    computed values that hold "within floating tolerance" are therefore
    stated with [==] on [Q]. *)

From Stdlib Require Import QArith Qfield ZArith List Lia Lqa Bool String.
From Stdlib Require Import Sorted Permutation.
From stdpp Require Import gmap list.
Import ListNotations.

Local Open Scope Q_scope.

(** ** Float values *)

Inductive fval : Type :=
  | NaN : fval
  | PInf : fval
  | NInf : fval
  | Fin (q : Q) : fval.

Module F.

(** [pd.isna] on a float: only NaN is missing; an infinity is a value. *)
Definition isna (x : fval) : bool :=
  match x with NaN => true | _ => false end.

Definition notna (x : fval) : bool := negb (isna x).

Definition Qltb (a b : Q) : bool := negb (Qle_bool b a).

Definition neg (x : fval) : fval :=
  match x with
  | NaN => NaN
  | PInf => NInf
  | NInf => PInf
  | Fin q => Fin (- q)
  end.

Definition add (x y : fval) : fval :=
  match x, y with
  | NaN, _ | _, NaN => NaN
  | PInf, NInf | NInf, PInf => NaN
  | PInf, _ | _, PInf => PInf
  | NInf, _ | _, NInf => NInf
  | Fin a, Fin b => Fin (Qred (a + b))
  end.

Definition sub (x y : fval) : fval := add x (neg y).

(** Infinity with the sign of [q], for [q] not zero. *)
Definition inf_of_sign (q : Q) : fval :=
  if Qltb 0 q then PInf else NInf.

Definition mul (x y : fval) : fval :=
  match x, y with
  | NaN, _ | _, NaN => NaN
  | Fin a, Fin b => Fin (Qred (a * b))
  | PInf, PInf | NInf, NInf => PInf
  | PInf, NInf | NInf, PInf => NInf
  | PInf, Fin q | Fin q, PInf =>
      if Qeq_bool q 0 then NaN else inf_of_sign q
  | NInf, Fin q | Fin q, NInf =>
      if Qeq_bool q 0 then NaN else neg (inf_of_sign q)
  end.

(** Division as numpy does it on floats: no exception, [x/0] is an
    infinity with the sign of [x] for [x] not zero, and [0/0] is NaN. *)
Definition div (x y : fval) : fval :=
  match x, y with
  | NaN, _ | _, NaN => NaN
  | Fin a, Fin b =>
      if Qeq_bool b 0
      then (if Qeq_bool a 0 then NaN else inf_of_sign a)
      else Fin (Qred (a / b))
  | Fin _, PInf | Fin _, NInf => Fin 0
  | PInf, Fin b => if Qltb b 0 then NInf else PInf
  | NInf, Fin b => if Qltb b 0 then PInf else NInf
  | PInf, PInf | PInf, NInf | NInf, PInf | NInf, NInf => NaN
  end.

(** Comparisons answer [False] as soon as one side is NaN. *)
Definition le (x y : fval) : bool :=
  match x, y with
  | NaN, _ | _, NaN => false
  | NInf, _ => true
  | _, PInf => true
  | PInf, _ => false
  | _, NInf => false
  | Fin a, Fin b => Qle_bool a b
  end.

Definition lt (x y : fval) : bool :=
  match x, y with
  | NaN, _ | _, NaN => false
  | PInf, _ => false
  | _, NInf => false
  | NInf, _ => true
  | _, PInf => true
  | Fin a, Fin b => Qltb a b
  end.

Definition gt (x y : fval) : bool := lt y x.

(** [x != y] on floats: NaN differs from everything, itself included. *)
Definition ne (x y : fval) : bool :=
  match x, y with
  | NaN, _ | _, NaN => true
  | PInf, PInf | NInf, NInf => false
  | Fin a, Fin b => negb (Qeq_bool a b)
  | _, _ => true
  end.

(** A NULL of the store is read as NaN. *)
Definition of_null (o : option Q) : fval :=
  match o with Some q => Fin q | None => NaN end.

Definition of_nat (n : nat) : fval := Fin (inject_Z (Z.of_nat n)).

Definition is_finite (x : fval) : Prop :=
  match x with Fin _ => True | _ => False end.

End F.

(** ** Series: the pandas operations the script calls *)

Definition Series := list fval.

Module Pd.

(** [s.shift(1)]: every value moves one place down, NaN enters at the
    top, the last value leaves. *)
Definition shift (s : Series) : Series :=
  match s with
  | [] => []
  | _ => NaN :: removelast s
  end.

(** [s.ffill()]: a missing value takes the last value seen before it. *)
Fixpoint ffill_from (last : fval) (s : Series) : Series :=
  match s with
  | [] => []
  | x :: s' =>
      let y := if F.isna x then last else x in
      y :: ffill_from y s'
  end.

Definition ffill (s : Series) : Series := ffill_from NaN s.

(** [s.diff()] is [s - s.shift(1)]. *)
Definition zip_with (f : fval -> fval -> fval) (a b : Series) : Series :=
  map (fun p => f (fst p) (snd p)) (combine a b).

Definition diff (s : Series) : Series := zip_with F.sub s (shift s).

(** [s.pct_change()] is [data / data.shift(1) - 1], where [data] is
    [s] forward filled when the pandas in use still pads by default
    ([pad = true]) and [s] itself otherwise ([pad = false]). *)
Definition pct_change (pad : bool) (s : Series) : Series :=
  let data := if pad then ffill s else s in
  map (fun x => F.sub x (Fin 1)) (zip_with F.div data (shift data)).

(** [s.where(cond, other)]: keep the value where [cond] holds. *)
Definition where_ (cond : fval -> bool) (other : fval) (s : Series) : Series :=
  map (fun x => if cond x then x else other) s.

(** The window of [k] values ending at position [i] (shorter at the
    start of the series). *)
Definition window (k i : nat) (s : Series) : Series :=
  firstn (S i - (S i - k)) (skipn (S i - k) s).

Definition fsum (w : Series) : fval := fold_left F.add w (Fin 0).

(** [s.rolling(k).mean()]: [min_periods] is [k], so the result is
    missing until [k] values are in the window and whenever one of them
    is missing. *)
Definition window_full (k : nat) (w : Series) : bool :=
  (length w =? k)%nat && forallb F.notna w.

Definition mean (w : Series) : fval := F.div (fsum w) (F.of_nat (length w)).

Definition rolling_mean (k : nat) (s : Series) : Series :=
  map (fun i => let w := window k i s in
                if window_full k w then mean w else NaN)
      (seq 0 (length s)).

End Pd.

(** ** Exponentially weighted mean

    [s.ewm(span=k, adjust=False).mean()] with the default
    [ignore_na=False] and [min_periods=0], as the pandas routine runs it:
    [weighted] is the running mean and [old_wt] the weight it carries.
    A missing value leaves [weighted] as it is and lets [old_wt] decay;
    an observation is blended in with weight [alpha], after which
    [old_wt] is 1 again.  When the observation equals the running mean
    the routine keeps the mean as it is. *)

Module Ewm.

Definition alpha (span : nat) : Q := 2 / (inject_Z (Z.of_nat span) + 1).

Definition step (a : Q) (weighted : fval) (old_wt : Q) (cur : fval)
  : fval * Q :=
  if F.notna weighted then
    let old_wt1 := old_wt * (1 - a) in
    if F.notna cur then
      (if F.ne weighted cur
       then F.div (F.add (F.mul (Fin old_wt1) weighted) (F.mul (Fin a) cur))
                  (Fin (old_wt1 + a))
       else weighted,
       1)
    else (weighted, old_wt1)
  else if F.notna cur then (cur, old_wt)
  else (weighted, old_wt).

Fixpoint go (a : Q) (weighted : fval) (old_wt : Q) (s : Series) : Series :=
  match s with
  | [] => []
  | cur :: s' =>
      let st := step a weighted old_wt cur in
      fst st :: go a (fst st) (snd st) s'
  end.

Definition mean (span : nat) (s : Series) : Series :=
  match s with
  | [] => []
  | x :: s' => x :: go (alpha span) x 1 s'
  end.

End Ewm.

(** ** Frames *)

(** One row of [price_data] as [load_price_data] selects it.  The
    collection script stores a row only when its date and its four prices
    are present ([dropna(subset=["date", "open", "high", "low", "close"])]
    and [float(...)]) and stores a missing volume as NULL, so the prices
    are numbers and the volume is optional.  A date is a day number. *)
Record PriceRow : Type := mkPriceRow {
  metal_id : Z;
  date : Z;
  open : Q;
  high : Q;
  low : Q;
  close : Q;
  volume : option Q
}.

(** The twenty columns [build_features] adds, in the order of [cols]. *)
Record Features : Type := mkFeatures {
  daily_return : fval;
  log_return : fval;
  sma_5 : fval;
  sma_10 : fval;
  sma_20 : fval;
  sma_50 : fval;
  ema_12 : fval;
  ema_26 : fval;
  bollinger_upper : fval;
  bollinger_middle : fval;
  bollinger_lower : fval;
  bollinger_width : fval;
  rsi_14 : fval;
  macd : fval;
  macd_signal : fval;
  macd_histogram : fval;
  high_low_range : fval;
  high_low_ratio : fval;
  volume_change : fval;
  volume_sma_20 : fval
}.

(** A row of the frame [build_features] returns: the price columns it
    copied and the columns it added. *)
Record FeatRow : Type := mkFeatRow {
  price : PriceRow;
  feat : Features
}.

(** The four value columns of [risk_events]. *)
Record RiskVals : Type := mkRiskVals {
  is_risk_event : bool;
  price_change_pct : fval;
  previous_close : fval;
  current_close : fval
}.

(** A row of the frame [build_risk_events] returns. *)
Record RiskRow : Type := mkRiskRow {
  risk_metal_id : Z;
  risk_date : Z;
  risk_close : fval;
  risk_daily_return : fval;
  risk_vals : RiskVals
}.

Definition column {A : Type} (f : A -> fval) (df : list A) : Series := map f df.

Definition col_high (df : list PriceRow) : Series := column (fun r => Fin (high r)) df.
Definition col_low (df : list PriceRow) : Series := column (fun r => Fin (low r)) df.
Definition col_close (df : list PriceRow) : Series := column (fun r => Fin (close r)) df.
Definition col_volume (df : list PriceRow) : Series := column (fun r => F.of_null (volume r)) df.

(** The value of a column at a position of the frame. *)
Definition at_ (s : Series) (i : nat) : fval := nth i s NaN.

(** ** Technical indicators *)

(** The two rolling averages of [calculate_rsi], its locals [gain] and
    [loss]. *)
Definition rsi_gain (series : Series) (period : nat) : Series :=
  let delta := Pd.diff series in
  Pd.rolling_mean period (Pd.where_ (fun d => F.gt d (Fin 0)) (Fin 0) delta).

Definition rsi_loss (series : Series) (period : nat) : Series :=
  let delta := Pd.diff series in
  Pd.rolling_mean period
    (map F.neg (Pd.where_ (fun d => F.lt d (Fin 0)) (Fin 0) delta)).

Definition rsi_of_rs (rs : fval) : fval :=
  F.sub (Fin 100) (F.div (Fin 100) (F.add (Fin 1) rs)).

Definition calculate_rsi (series : Series) (period : nat) : Series :=
  let gain := rsi_gain series period in
  let loss := rsi_loss series period in
  let rs := Pd.zip_with F.div gain loss in
  map rsi_of_rs rs.

Definition calculate_macd (series : Series) (fast slow signal : nat)
  : Series * Series * Series :=
  let ema_fast := Ewm.mean fast series in
  let ema_slow := Ewm.mean slow series in
  let macd := Pd.zip_with F.sub ema_fast ema_slow in
  let macd_signal := Ewm.mean signal macd in
  let macd_hist := Pd.zip_with F.sub macd macd_signal in
  (macd, macd_signal, macd_hist).

(** ** The store

    The tables of the database the script reads and writes, the messages
    it prints, and the two ways a call can end.  The script catches no
    exception, so an exception raised by the store ends the run.

    Store failures are scripted: [faults] holds one entry for each call
    to the store still to come, in order.  For a query, [Some _] says
    that the query raises; for a transaction, [Some n] says that the
    insert of row [n] of the batch raises (when the batch has that many
    rows).  [None], or no entry left, says that the store does not fail
    the call.  A statement executed with an empty list of records raises
    whatever the store does: it runs without parameters, and its bind
    parameters have no value. *)

Inductive outcome (A : Type) : Type :=
  | Returned (a : A)
  | Raised.
Arguments Returned {A} a.
Arguments Raised {A}.

Record Engine : Type := mkEngine {
  metals : list (Z * string);
  price_data : list PriceRow;
  technical_features : gmap (Z * Z) Features;
  risk_events : gmap (Z * Z) RiskVals;
  faults : list (option nat)
}.

Inductive Msg : Type :=
  | Banner
  | MetalHeader (name : string) (id : Z)
  | NoPriceData
  | InsertedFeatures (n : nat)
  | InsertedRisk (n : nat)
  | Done
  | TotalFeatures (n : nat)
  | TotalRisk (n : nat)
  | VerifyHints.

Record World : Type := mkWorld {
  db : Engine;
  stdout : list Msg
}.

(** Computations over the store and the console that may raise. *)
Definition M (A : Type) : Type := World -> World * outcome A.

Definition ret {A : Type} (a : A) : M A := fun w => (w, Returned a).

Definition bind {A B : Type} (k : A -> M B) (m : M A) : M B :=
  fun w =>
    match m w with
    | (w', Returned a) => k a w'
    | (w', Raised) => (w', Raised)
    end.

#[global] Instance M_ret : MRet M := @ret.
#[global] Instance M_bind : MBind M := @bind.

Definition print (m : Msg) : M unit :=
  fun w => ({| db := db w; stdout := stdout w ++ [m] |}, Returned tt).

Definition set_faults (fs : list (option nat)) (e : Engine) : Engine :=
  {| metals := metals e; price_data := price_data e;
     technical_features := technical_features e;
     risk_events := risk_events e; faults := fs |}.

(** [pd.read_sql(query, engine)]: the rows the query selects, or the
    exception of the store. *)
Definition read_sql {A : Type} (select : Engine -> A) : M A :=
  fun w =>
    let fault := hd None (faults (db w)) in
    let engine := set_faults (tl (faults (db w))) (db w) in
    match fault with
    | Some _ => ({| db := engine; stdout := stdout w |}, Raised)
    | None => ({| db := engine; stdout := stdout w |}, Returned (select engine))
    end.

(** [with engine.begin() as conn: body]: the body works on the
    connection; when it returns the transaction commits, when it raises
    the transaction rolls back and the exception goes on. *)
Definition engine_begin {A : Type} (body : option nat -> Engine -> Engine * outcome A)
  : M A :=
  fun w =>
    let fault := hd None (faults (db w)) in
    let conn := set_faults (tl (faults (db w))) (db w) in
    match body fault conn with
    | (conn', Returned a) => ({| db := conn'; stdout := stdout w |}, Returned a)
    | (_, Raised) => ({| db := conn; stdout := stdout w |}, Raised)
    end.

(** The statement run once per record, in order, until one fails. *)
Fixpoint execute_records {R : Type} (stmt : R -> Engine -> Engine)
    (fault : option nat) (records : list R) (conn : Engine)
  : Engine * outcome unit :=
  match records with
  | [] => (conn, Returned tt)
  | r :: records' =>
      match fault with
      | Some O => (conn, Raised)
      | Some (S n) => execute_records stmt (Some n) records' (stmt r conn)
      | None => execute_records stmt None records' (stmt r conn)
      end
  end.

(** [conn.execute(sql, records)] on a [text()] statement with bind
    parameters.  With records the statement runs once per record.  With
    an empty list it runs once without parameters and raises
    ([StatementError]: a value is required for each bind parameter). *)
Definition conn_execute {R : Type} (stmt : R -> Engine -> Engine)
    (fault : option nat) (records : list R) (conn : Engine)
  : Engine * outcome unit :=
  match records with
  | [] => (conn, Raised)
  | _ :: _ => execute_records stmt fault records conn
  end.

(** [ON CONFLICT (metal_id, date) DO NOTHING]: a row whose key is in the
    table already is skipped without an error. *)
Definition on_conflict_do_nothing {V : Type} (key : Z * Z) (v : V)
    (table : gmap (Z * Z) V) : gmap (Z * Z) V :=
  match table !! key with
  | Some _ => table
  | None => <[key := v]> table
  end.

(** [INSERT INTO technical_features ... ON CONFLICT (metal_id, date) DO
    NOTHING]. *)
Definition insert_technical_features (r : FeatRow) (conn : Engine) : Engine :=
  {| metals := metals conn; price_data := price_data conn;
     technical_features :=
       on_conflict_do_nothing (metal_id (price r), date (price r)) (feat r)
         (technical_features conn);
     risk_events := risk_events conn; faults := faults conn |}.

(** [INSERT INTO risk_events ... ON CONFLICT (metal_id, date) DO NOTHING]. *)
Definition insert_risk_events (r : RiskRow) (conn : Engine) : Engine :=
  {| metals := metals conn; price_data := price_data conn;
     technical_features := technical_features conn;
     risk_events :=
       on_conflict_do_nothing (risk_metal_id r, risk_date r) (risk_vals r)
         (risk_events conn);
     faults := faults conn |}.

(** [ORDER BY key ASC]. *)
Fixpoint insert_by {A : Type} (key : A -> Z) (r : A) (l : list A) : list A :=
  match l with
  | [] => [r]
  | x :: l' => if (key r <=? key x)%Z then r :: l else x :: insert_by key r l'
  end.

Definition order_by {A : Type} (key : A -> Z) (l : list A) : list A :=
  fold_right (insert_by key) [] l.

(** [SELECT metal_id, name FROM metals ORDER BY metal_id]. *)
Definition select_metals (engine : Engine) : list (Z * string) :=
  order_by fst (metals engine).

(** [SELECT ... FROM price_data WHERE metal_id = :metal_id ORDER BY date
    ASC]. *)
Definition select_price_data (id : Z) (engine : Engine) : list PriceRow :=
  order_by date (List.filter (fun r => (metal_id r =? id)%Z) (price_data engine)).

Definition load_price_data (id : Z) : M (option (list PriceRow)) :=
  df ← read_sql (select_price_data id) ;
  match df with
  | [] => mret None
  | _ => mret (Some df)
  end.

(** ** The pipeline

    Three things the script leaves to its libraries are parameters here:
    the real logarithm and square root on finite arguments (numpy), which
    [Q] does not have, and whether [pct_change()] without arguments
    forward fills missing values first (the pandas default changed
    between versions).  What these functions answer on NaN, on the
    infinities and outside their domain is written out below. *)

Section Pipeline.

Variable ln : Q -> Q.
Variable sqrt : Q -> Q.
Variable pad : bool.

(** [np.log]: NaN below zero, minus infinity at zero. *)
Definition np_log (x : fval) : fval :=
  match x with
  | NaN => NaN
  | PInf => PInf
  | NInf => NaN
  | Fin q =>
      if F.Qltb q 0 then NaN
      else if Qeq_bool q 0 then NInf
      else Fin (ln q)
  end.

Definition np_sqrt (x : fval) : fval :=
  match x with
  | NaN => NaN
  | PInf => PInf
  | NInf => NaN
  | Fin q => if F.Qltb q 0 then NaN else Fin (sqrt q)
  end.

(** Sample variance of a window ([ddof = 1]). *)
Definition sample_var (w : Series) : fval :=
  let m := Pd.mean w in
  F.div (Pd.fsum (map (fun x => F.mul (F.sub x m) (F.sub x m)) w))
        (F.of_nat (length w - 1)).

(** [s.rolling(k).std()]. *)
Definition rolling_std (k : nat) (s : Series) : Series :=
  map (fun i => let w := Pd.window k i s in
                if Pd.window_full k w then np_sqrt (sample_var w) else NaN)
      (seq 0 (length s)).

Definition calculate_bollinger (series : Series) (window : nat) (num_std : Q)
  : Series * Series * Series * Series :=
  let mid := Pd.rolling_mean window series in
  let std := rolling_std window series in
  let upper := Pd.zip_with F.add mid (map (F.mul (Fin num_std)) std) in
  let lower := Pd.zip_with F.sub mid (map (F.mul (Fin num_std)) std) in
  let width := Pd.zip_with F.div (Pd.zip_with F.sub upper lower) mid in
  (upper, mid, lower, width).

Definition build_features (df : list PriceRow) : list FeatRow :=
  let close_ := col_close df in
  let c_daily_return := Pd.pct_change pad close_ in
  let c_log_return := map np_log (Pd.zip_with F.div close_ (Pd.shift close_)) in
  let c_sma_5 := Pd.rolling_mean 5 close_ in
  let c_sma_10 := Pd.rolling_mean 10 close_ in
  let c_sma_20 := Pd.rolling_mean 20 close_ in
  let c_sma_50 := Pd.rolling_mean 50 close_ in
  let c_ema_12 := Ewm.mean 12 close_ in
  let c_ema_26 := Ewm.mean 26 close_ in
  let '(c_upper, c_middle, c_lower, c_width) := calculate_bollinger close_ 20 2 in
  let c_rsi_14 := calculate_rsi close_ 14 in
  let '(c_macd, c_macd_signal, c_macd_hist) := calculate_macd close_ 12 26 9 in
  let c_high_low_range := Pd.zip_with F.sub (col_high df) (col_low df) in
  let c_high_low_ratio :=
    Pd.zip_with (fun h l => if F.gt l (Fin 0) then F.div h l else NaN)
                (col_high df) (col_low df) in
  let c_volume_change := Pd.pct_change pad (col_volume df) in
  let c_volume_sma_20 := Pd.rolling_mean 20 (col_volume df) in
  map (fun ir =>
         let i := fst ir in
         {| price := snd ir;
            feat := {|
              daily_return := at_ c_daily_return i;
              log_return := at_ c_log_return i;
              sma_5 := at_ c_sma_5 i;
              sma_10 := at_ c_sma_10 i;
              sma_20 := at_ c_sma_20 i;
              sma_50 := at_ c_sma_50 i;
              ema_12 := at_ c_ema_12 i;
              ema_26 := at_ c_ema_26 i;
              bollinger_upper := at_ c_upper i;
              bollinger_middle := at_ c_middle i;
              bollinger_lower := at_ c_lower i;
              bollinger_width := at_ c_width i;
              rsi_14 := at_ c_rsi_14 i;
              macd := at_ c_macd i;
              macd_signal := at_ c_macd_signal i;
              macd_histogram := at_ c_macd_hist i;
              high_low_range := at_ c_high_low_range i;
              high_low_ratio := at_ c_high_low_ratio i;
              volume_change := at_ c_volume_change i;
              volume_sma_20 := at_ c_volume_sma_20 i |} |})
      (combine (seq 0 (length df)) df).

(** ** Risk events *)

Definition default_threshold : Q := - (2 # 100).

Definition feat_close (r : FeatRow) : fval := Fin (close (price r)).

(** The frame before [dropna]: one row per row of [df]. *)
Definition risk_frame (df : list FeatRow) (threshold : Q) : list RiskRow :=
  let c_close := column feat_close df in
  let c_previous := Pd.shift c_close in
  map (fun ir =>
         let i := fst ir in
         let r := snd ir in
         let dr := daily_return (feat r) in
         {| risk_metal_id := metal_id (price r);
            risk_date := date (price r);
            risk_close := feat_close r;
            risk_daily_return := dr;
            risk_vals := {|
              is_risk_event := F.le dr (Fin threshold);
              price_change_pct := F.mul dr (Fin 100);
              previous_close := at_ c_previous i;
              current_close := feat_close r |} |})
      (combine (seq 0 (length df)) df).

(** [dropna(subset=["previous_close", "current_close", "daily_return"])]. *)
Definition risk_complete (r : RiskRow) : bool :=
  F.notna (previous_close (risk_vals r)) &&
  F.notna (current_close (risk_vals r)) &&
  F.notna (risk_daily_return r).

Definition build_risk_events (df : list FeatRow) (threshold : Q) : list RiskRow :=
  List.filter risk_complete (risk_frame df threshold).

(** ** Writers *)

(** The columns of [cols] that can be missing, in order. *)
Definition feature_columns (f : Features) : list fval :=
  [ daily_return f; log_return f;
    sma_5 f; sma_10 f; sma_20 f; sma_50 f;
    ema_12 f; ema_26 f;
    bollinger_upper f; bollinger_middle f; bollinger_lower f; bollinger_width f;
    rsi_14 f;
    macd f; macd_signal f; macd_histogram f;
    high_low_range f; high_low_ratio f;
    volume_change f; volume_sma_20 f ].

(** [df[cols].dropna()]. *)
Definition dropna (df : list FeatRow) : list FeatRow :=
  List.filter (fun r => forallb F.notna (feature_columns (feat r))) df.

Definition upsert_technical_features (df : list FeatRow) : M nat :=
  let feat := dropna df in
  engine_begin (fun fault conn =>
                  conn_execute insert_technical_features fault feat conn) ;;
  mret (List.length feat).

Definition upsert_risk_events (df : list FeatRow) : M nat :=
  let risk := build_risk_events df default_threshold in
  engine_begin (fun fault conn =>
                  conn_execute insert_risk_events fault risk conn) ;;
  mret (List.length risk).

(** ** Driver *)

Fixpoint main_loop (ms : list (Z * string)) (total_feat total_risk : nat)
  : M (nat * nat) :=
  match ms with
  | [] => mret (total_feat, total_risk)
  | (id, name) :: ms' =>
      print (MetalHeader name id) ;;
      df ← load_price_data id ;
      match df with
      | None =>
          print NoPriceData ;;
          main_loop ms' total_feat total_risk
      | Some df =>
          let df_feat := build_features df in
          n_feat ← upsert_technical_features df_feat ;
          n_risk ← upsert_risk_events df_feat ;
          print (InsertedFeatures n_feat) ;;
          print (InsertedRisk n_risk) ;;
          main_loop ms' (total_feat + n_feat)%nat (total_risk + n_risk)%nat
      end
  end.

Definition main : M unit :=
  print Banner ;;
  ms ← read_sql select_metals ;
  totals ← main_loop ms 0%nat 0%nat ;
  print Done ;;
  print (TotalFeatures (fst totals)) ;;
  print (TotalRisk (snd totals)) ;;
  print VerifyHints.

End Pipeline.

(** ** Words of the specification

    What a statement does to a table when every record is run, whether
    the execution of a batch raises (it is empty, or a scripted fault
    hits it), and what "all fields non-null" says. *)

Definition insert_all {V : Type} (rows : list (Z * Z * V))
    (table : gmap (Z * Z) V) : gmap (Z * Z) V :=
  fold_left (fun t kv => on_conflict_do_nothing (fst kv) (snd kv) t) rows table.

Definition execute_all {R : Type} (stmt : R -> Engine -> Engine)
    (records : list R) (conn : Engine) : Engine :=
  fold_left (fun c r => stmt r c) records conn.

Definition fails {R : Type} (fault : option nat) (records : list R) : bool :=
  match records with
  | [] => true
  | _ :: _ =>
      match fault with
      | Some n => (n <? List.length records)%nat
      | None => false
      end
  end.



(** The shape the two writers share: a transaction around one statement,
    followed by [return n]. *)
Definition write_batch {R : Type} (stmt : R -> Engine -> Engine)
    (records : list R) (n : nat) : M nat :=
  engine_begin (fun fault conn => conn_execute stmt fault records conn) ;;
  mret n.

(** The world after one more line on the console. *)
Definition say (m : Msg) (w : World) : World :=
  {| db := db w; stdout := stdout w ++ [m] |}.

(** The world after one more call to the store that changed no table. *)
Definition pop_fault (w : World) : World :=
  {| db := set_faults (tl (faults (db w))) (db w); stdout := stdout w |}.

Definition feature_entry (r : FeatRow) : Z * Z * Features :=
  ((metal_id (price r), date (price r)), feat r).

Definition risk_entry (r : RiskRow) : Z * Z * RiskVals :=
  ((risk_metal_id r, risk_date r), risk_vals r).

Definition all_fields_present (f : Features) : Prop :=
  daily_return f <> NaN /\ log_return f <> NaN /\
  sma_5 f <> NaN /\ sma_10 f <> NaN /\ sma_20 f <> NaN /\ sma_50 f <> NaN /\
  ema_12 f <> NaN /\ ema_26 f <> NaN /\
  bollinger_upper f <> NaN /\ bollinger_middle f <> NaN /\
  bollinger_lower f <> NaN /\ bollinger_width f <> NaN /\
  rsi_14 f <> NaN /\
  macd f <> NaN /\ macd_signal f <> NaN /\ macd_histogram f <> NaN /\
  high_low_range f <> NaN /\ high_low_ratio f <> NaN /\
  volume_change f <> NaN /\ volume_sma_20 f <> NaN.

(** The recurrence as the specification words it: the first value is the
    first observation, every later value is
    [a * observation + (1 - a) * previous value], and every value is a
    number. *)
Definition satisfies_ema_recurrence (a : Q) (xs es : Series) : Prop :=
  List.length es = List.length xs /\
  (forall i, (i < List.length xs)%nat ->
     exists x e, at_ xs i = Fin x /\ at_ es i = Fin e /\ (i = 0%nat -> e = x)) /\
  (forall i x e e',
     (S i < List.length xs)%nat ->
     at_ xs (S i) = Fin x -> at_ es i = Fin e -> at_ es (S i) = Fin e' ->
     e' == a * x + (1 - a) * e).

(** ** Shapes of values and series used in the proofs *)

Definition is_nonneg (x : fval) : Prop :=
  match x with Fin q => 0 <= q | _ => False end.

Definition is_nonneg_or_nan (x : fval) : Prop :=
  match x with NaN => True | Fin q => 0 <= q | _ => False end.

Definition is_zero (x : fval) : Prop :=
  match x with Fin q => q == 0 | _ => False end.

Definition is_fin_or_nan (x : fval) : Prop :=
  match x with NaN | Fin _ => True | _ => False end.

(** The two series [calculate_rsi] averages. *)
Definition rsi_gains (delta : Series) : Series :=
  Pd.where_ (fun d => F.gt d (Fin 0)) (Fin 0) delta.

Definition rsi_losses (delta : Series) : Series :=
  map F.neg (Pd.where_ (fun d => F.lt d (Fin 0)) (Fin 0) delta).

(** [ema_follows a prev xs es]: the values [es] continue the recurrence
    over the observations [xs] from the value [prev]. *)
Inductive ema_follows (a : Q) : Q -> Series -> Series -> Prop :=
  | follows_nil (prev : Q) : ema_follows a prev [] []
  | follows_cons (prev x e : Q) (xs es : Series) :
      e == a * x + (1 - a) * prev ->
      ema_follows a e xs es ->
      ema_follows a prev (Fin x :: xs) (Fin e :: es).

(** ** Words for the further properties *)

Definition Qsum (l : list Q) : Q := fold_right Qplus 0 l.

(** The [k] entries of a list that end at position [i]. *)
Definition last_k {A : Type} (k i : nat) (l : list A) : list A :=
  firstn k (skipn (S i - k) l).

(** [v] is what a simple moving average over [k] values shows at position
    [i] of the numbers [xs]: nothing before [k] values are there, their
    arithmetic mean afterwards. *)
Definition is_window_mean (k : nat) (xs : list Q) (i : nat) (v : fval) : Prop :=
  if (S i <? k)%nat then v = NaN
  else exists m, v = Fin m /\
                 m == Qsum (last_k k i xs) / inject_Z (Z.of_nat k).

(** [x] is a number between [lo] and [hi]. *)
Definition is_between (lo hi : Q) (x : fval) : Prop :=
  match x with Fin q => lo <= q /\ q <= hi | _ => False end.

(** One row of [risk_frame], from its position and its feature row. *)
Definition risk_row (c_previous : Series) (threshold : Q) (ir : nat * FeatRow)
  : RiskRow :=
  let i := fst ir in
  let r := snd ir in
  let dr := daily_return (feat r) in
  {| risk_metal_id := metal_id (price r);
     risk_date := date (price r);
     risk_close := feat_close r;
     risk_daily_return := dr;
     risk_vals := {|
       is_risk_event := F.le dr (Fin threshold);
       price_change_pct := F.mul dr (Fin 100);
       previous_close := at_ c_previous i;
       current_close := feat_close r |} |}.

(** The sums of the per-metal counts a run has printed. *)
Fixpoint features_reported (out : list Msg) : nat :=
  match out with
  | [] => 0
  | InsertedFeatures n :: out' => n + features_reported out'
  | _ :: out' => features_reported out'
  end.

Fixpoint risk_reported (out : list Msg) : nat :=
  match out with
  | [] => 0
  | InsertedRisk n :: out' => n + risk_reported out'
  | _ :: out' => risk_reported out'
  end.

(** Ascending order of date. *)
Definition by_date (a b : PriceRow) : Prop := (date a <= date b)%Z.

(** A column is causal when it has one value per row and rows added at
    the end leave the values of the rows before them as they are. *)
Definition Causal {A : Type} (c : list A -> Series) : Prop :=
  (forall l, List.length (c l) = List.length l) /\
  (forall l more, exists rest, c (l ++ more) = c l ++ rest).

(** Any statistic taken over the rolling window. *)
Definition rolling (k : nat) (h : Series -> fval) (s : Series) : Series :=
  map (fun i => let w := Pd.window k i s in
                if Pd.window_full k w then h w else NaN)
      (seq 0 (List.length s)).

(** ** Sample data

    Small price frames on which the properties below are exercised.  The
    logarithm and the square root are stood in for by the identity there:
    which values are missing and which rows are written does not depend
    on them. *)

Definition sample_point (d : Z) (c : Q) (v : option Q) : PriceRow :=
  {| metal_id := 1; date := d; open := c; high := c + 1; low := c - 1;
     close := c; volume := v |}.

(** The closes 100, 97, 99 of the specification's example. *)
Definition sample_series : list PriceRow :=
  [sample_point 1 100 (Some 10); sample_point 2 97 (Some 12);
   sample_point 3 99 (Some 9)].

(** Fifteen days at the same close. *)
Definition flat_series : list PriceRow :=
  map (fun d => sample_point (Z.of_nat d) 100 (Some 5)) (seq 0 15).

(** Fifteen days, each closing one above the day before. *)
Definition rising_series : list PriceRow :=
  map (fun d => sample_point (Z.of_nat d) (100 + inject_Z (Z.of_nat d)) (Some 5))
      (seq 0 15).

(** Fifty days closing at 100 and 101 in turn, with a rising volume: the
    shortest kind of series that yields a feature row. *)
Definition zigzag_series : list PriceRow :=
  map (fun d => sample_point (Z.of_nat d)
                  (if Nat.even d then 100 else 101)
                  (Some (inject_Z (Z.of_nat (d + 1)))))
      (seq 0 50).

(** A store with the given metals and prices, empty derived tables and
    the given script of faults. *)
Definition sample_world_of (ms : list (Z * string)) (prices : list PriceRow)
    (fs : list (option nat)) : World :=
  {| db := {| metals := ms;
              price_data := prices;
              technical_features := ∅;
              risk_events := ∅;
              faults := fs |};
     stdout := [] |}.

(** Two metals, of which only metal 1 has prices. *)
Definition sample_world (fs : list (option nat)) : World :=
  sample_world_of [(1%Z, "Gold"%string); (2%Z, "Silver"%string)] zigzag_series fs.


(** Fifty-one days like [zigzag_series], with no volume traded on day 49. *)
Definition zero_volume_series : list PriceRow :=
  map (fun d => sample_point (Z.of_nat d)
                  (if Nat.even d then 100 else 101)
                  (Some (if (d =? 49)%nat then 0 else inject_Z (Z.of_nat (d + 1)))))
      (seq 0 51).

Definition zero_volume_world : World :=
  sample_world_of [(1%Z, "Gold"%string)] zero_volume_series [].

(** Three days, the second stored without a volume. *)
Definition gap_series : list PriceRow :=
  [sample_point 1 100 (Some 10); sample_point 2 97 None;
   sample_point 3 99 (Some 9)].

(** A store whose only metal has three days of prices. *)
Definition short_series_world : World :=
  sample_world_of [(1%Z, "Gold"%string)] sample_series [].

(** What the specification asks of one asset's writes: all of its rows
    are in the store, or the store is as it was. *)
Definition asset_all_committed (frame : list FeatRow) (w' : World) : Prop :=
  (forall r, In r (dropna frame) ->
             is_Some (technical_features (db w') !! fst (feature_entry r))) /\
  (forall r, In r (build_risk_events frame default_threshold) ->
             is_Some (risk_events (db w') !! fst (risk_entry r))).

Definition asset_none_committed (w w' : World) : Prop :=
  technical_features (db w') = technical_features (db w) /\
  risk_events (db w') = risk_events (db w).

Definition stand_in (q : Q) : Q := q.

(** * Properties *)

(** ** Lists and series *)

Section ListFacts.

Context {A B : Type}.

Lemma nth_error_indexed (f : nat * A -> B) (l : list A) :
  forall s i,
    nth_error (map f (combine (seq s (List.length l)) l)) i
    = option_map (fun x => f ((s + i)%nat, x)) (nth_error l i).
Proof.
  induction l as [|x l IH]; intros s i; simpl.
  - destruct i; reflexivity.
  - destruct i as [|i]; simpl.
    + rewrite Nat.add_0_r. reflexivity.
    + rewrite IH. rewrite Nat.add_succ_comm. reflexivity.
Qed.

Lemma length_indexed (f : nat * A -> B) (l : list A) :
  List.length (map f (combine (seq 0 (List.length l)) l)) = List.length l.
Proof.
  rewrite length_map, length_combine, length_seq. apply Nat.min_id.
Qed.

Lemma filter_all (f : A -> bool) (l : list A) :
  (forall x, In x l -> f x = true) -> List.filter f l = l.
Proof.
  induction l as [|x l IH]; intros H; simpl; [reflexivity|].
  rewrite (H x (or_introl eq_refl)). f_equal. apply IH.
  intros y Hy. apply H. right. exact Hy.
Qed.

Lemma filter_drop_first (f : A -> bool) (l : list A) :
  (forall x, hd_error l = Some x -> f x = false) ->
  (forall i x, nth_error l (S i) = Some x -> f x = true) ->
  List.filter f l = tl l.
Proof.
  destruct l as [|x l]; intros H0 HS; simpl; [reflexivity|].
  rewrite (H0 x eq_refl). apply filter_all.
  intros y Hy. apply In_nth_error in Hy. destruct Hy as [i Hi].
  apply (HS i). exact Hi.
Qed.

Lemma nth_error_combine (a : list A) (b : list B) :
  forall i x y,
    nth_error a i = Some x -> nth_error b i = Some y ->
    nth_error (combine a b) i = Some (x, y).
Proof.
  revert b. induction a as [|u a IH]; intros b i x y Ha Hb.
  - destruct i; discriminate.
  - destruct b as [|v b]; [destruct i; discriminate|].
    destruct i as [|i]; simpl in *.
    + congruence.
    + apply IH; assumption.
Qed.

Lemma nth_error_tl (l : list A) (i : nat) :
  nth_error (tl l) i = nth_error l (S i).
Proof. destruct l; [destruct i|]; reflexivity. Qed.

End ListFacts.

Lemma at_map (f : fval -> fval) (s : Series) (i : nat) :
  (i < List.length s)%nat -> at_ (map f s) i = f (at_ s i).
Proof.
  intros H. unfold at_. rewrite (nth_indep _ NaN (f NaN)).
  - apply map_nth.
  - rewrite length_map. exact H.
Qed.

Lemma at_column {A : Type} (f : A -> fval) (df : list A) (i : nat) (r : A) :
  nth_error df i = Some r -> at_ (column f df) i = f r.
Proof.
  intros H. unfold at_, column.
  apply nth_error_nth. rewrite nth_error_map, H. reflexivity.
Qed.

Lemma at_beyond (s : Series) (i : nat) :
  (List.length s <= i)%nat -> at_ s i = NaN.
Proof. intros H. unfold at_. apply nth_overflow. exact H. Qed.

Module PdFacts.

Lemma length_shift (s : Series) : List.length (Pd.shift s) = List.length s.
Proof.
  destruct s as [|x s]; [reflexivity|].
  unfold Pd.shift. cbn [List.length].
  rewrite removelast_firstn_len, length_firstn. cbn [List.length]. lia.
Qed.

Lemma at_shift_0 (s : Series) : at_ (Pd.shift s) 0 = NaN.
Proof. destruct s; reflexivity. Qed.

Lemma nth_removelast (s : Series) :
  forall i, (S i < List.length s)%nat -> nth i (removelast s) NaN = nth i s NaN.
Proof.
  induction s as [|x s IH]; intros i H; [simpl in H; lia|].
  destruct s as [|y s]; [simpl in H; lia|].
  destruct i as [|i]; [reflexivity|].
  cbn [removelast nth]. apply IH. simpl in H |- *. lia.
Qed.

Lemma at_shift_S (s : Series) (i : nat) :
  (S i < List.length s)%nat -> at_ (Pd.shift s) (S i) = at_ s i.
Proof.
  intros H. destruct s as [|x s]; [simpl in H; lia|].
  unfold at_, Pd.shift. cbn [nth]. apply nth_removelast. exact H.
Qed.

Lemma length_zip_with f (a b : Series) :
  List.length a = List.length b ->
  List.length (Pd.zip_with f a b) = List.length a.
Proof.
  intros H. unfold Pd.zip_with.
  rewrite length_map, length_combine, <- H. apply Nat.min_id.
Qed.

Lemma at_zip_with f (a b : Series) (i : nat) :
  (i < List.length a)%nat -> (i < List.length b)%nat ->
  at_ (Pd.zip_with f a b) i = f (at_ a i) (at_ b i).
Proof.
  intros Ha Hb. unfold at_, Pd.zip_with.
  apply nth_error_nth. rewrite nth_error_map.
  rewrite (nth_error_combine a b i (nth i a NaN) (nth i b NaN)).
  - reflexivity.
  - apply nth_error_nth'. exact Ha.
  - apply nth_error_nth'. exact Hb.
Qed.

End PdFacts.

(** ** Rows of the feature frame *)

Section FrameFacts.

Variable ln : Q -> Q.
Variable sqrt : Q -> Q.
Variable pad : bool.

Lemma length_build_features (df : list PriceRow) :
  List.length (build_features ln sqrt pad df) = List.length df.
Proof.
  unfold build_features.
  cbv beta zeta delta [calculate_bollinger calculate_macd]. cbv iota.
  apply length_indexed.
Qed.

(** Row [i] of the feature frame keeps row [i] of the price frame and
    takes each added column at position [i]. *)
Lemma nth_error_build_features (df : list PriceRow) (i : nat) (r : PriceRow) :
  nth_error df i = Some r ->
  exists fr,
    nth_error (build_features ln sqrt pad df) i = Some fr /\
    price fr = r /\
    daily_return (feat fr) = at_ (Pd.pct_change pad (col_close df)) i /\
    ema_12 (feat fr) = at_ (Ewm.mean 12 (col_close df)) i /\
    ema_26 (feat fr) = at_ (Ewm.mean 26 (col_close df)) i /\
    rsi_14 (feat fr) = at_ (calculate_rsi (col_close df) 14) i /\
    macd (feat fr) = at_ (fst (fst (calculate_macd (col_close df) 12 26 9))) i /\
    macd_signal (feat fr) = at_ (snd (fst (calculate_macd (col_close df) 12 26 9))) i /\
    bollinger_middle (feat fr)
      = at_ (snd (fst (fst (calculate_bollinger sqrt (col_close df) 20 2)))) i /\
    bollinger_width (feat fr)
      = at_ (snd (calculate_bollinger sqrt (col_close df) 20 2)) i /\
    volume_change (feat fr) = at_ (Pd.pct_change pad (col_volume df)) i.
Proof.
  intros H. unfold build_features.
  cbv beta zeta delta [calculate_bollinger calculate_macd]. cbv iota.
  rewrite nth_error_indexed, H. cbn [option_map Nat.add fst snd].
  eexists. split; [reflexivity|]. cbn [price feat].
  repeat split; reflexivity.
Qed.

End FrameFacts.

(** ** Returns of a price column *)

Module ReturnFacts.

Lemma ffill_notna (s : Series) :
  forall last, forallb F.notna s = true -> Pd.ffill_from last s = s.
Proof.
  induction s as [|x s IH]; intros last H; [reflexivity|].
  simpl in H. apply andb_true_iff in H. destruct H as [Hx Hs].
  cbn [Pd.ffill_from]. destruct x; try discriminate; cbn [F.isna];
    rewrite IH by exact Hs; reflexivity.
Qed.

Lemma notna_col_close (df : list PriceRow) :
  forallb F.notna (col_close df) = true.
Proof. induction df as [|r df IH]; [reflexivity|exact IH]. Qed.

Lemma length_pct_change (pad : bool) (s : Series) :
  List.length (Pd.pct_change pad s) = List.length s.
Proof.
  unfold Pd.pct_change. rewrite length_map.
  assert (Hf : forall l t, List.length (Pd.ffill_from l t) = List.length t).
  { intros l t. revert l. induction t as [|x t IH]; intros l; [reflexivity|].
    cbn [Pd.ffill_from List.length]. rewrite IH. reflexivity. }
  destruct pad.
  - rewrite PdFacts.length_zip_with by (symmetry; apply PdFacts.length_shift).
    apply Hf.
  - apply PdFacts.length_zip_with. symmetry. apply PdFacts.length_shift.
Qed.

Lemma pct_change_col_close (pad : bool) (df : list PriceRow) :
  Pd.pct_change pad (col_close df) = Pd.pct_change false (col_close df).
Proof.
  unfold Pd.pct_change. destruct pad; [|reflexivity].
  unfold Pd.ffill. rewrite ffill_notna by apply notna_col_close. reflexivity.
Qed.

(** The return of the first row is missing. *)
Lemma pct_change_first (pad : bool) (s : Series) :
  at_ (Pd.pct_change pad s) 0 = NaN.
Proof.
  unfold Pd.pct_change.
  destruct (if pad then Pd.ffill s else s) as [|x t]; [reflexivity|].
  unfold at_. cbn. destruct x; reflexivity.
Qed.

(** From the second row on it is [close / previous close - 1]. *)
Lemma pct_change_next (pad : bool) (df : list PriceRow) (i : nat) (p c : PriceRow) :
  nth_error df i = Some p -> nth_error df (S i) = Some c ->
  at_ (Pd.pct_change pad (col_close df)) (S i)
  = F.sub (F.div (Fin (close c)) (Fin (close p))) (Fin 1).
Proof.
  intros Hp Hc. rewrite pct_change_col_close. unfold Pd.pct_change.
  assert (Hlen : (S i < List.length (col_close df))%nat).
  { unfold col_close, column. rewrite length_map.
    apply nth_error_Some. rewrite Hc. discriminate. }
  rewrite at_map.
  2:{ rewrite PdFacts.length_zip_with by (symmetry; apply PdFacts.length_shift).
      exact Hlen. }
  rewrite PdFacts.at_zip_with.
  2: exact Hlen.
  2: rewrite PdFacts.length_shift; exact Hlen.
  rewrite PdFacts.at_shift_S by exact Hlen.
  unfold col_close.
  rewrite (at_column _ df (S i) c Hc), (at_column _ df i p Hp). reflexivity.
Qed.

End ReturnFacts.

(** ** Risk events *)

Module RiskFacts.

Lemma length_risk_frame (df : list FeatRow) (t : Q) :
  List.length (risk_frame df t) = List.length df.
Proof. unfold risk_frame. apply length_indexed. Qed.

Lemma nth_error_risk_frame (df : list FeatRow) (t : Q) (i : nat) (r : FeatRow) :
  nth_error df i = Some r ->
  nth_error (risk_frame df t) i
  = Some {| risk_metal_id := metal_id (price r);
            risk_date := date (price r);
            risk_close := feat_close r;
            risk_daily_return := daily_return (feat r);
            risk_vals := {|
              is_risk_event := F.le (daily_return (feat r)) (Fin t);
              price_change_pct := F.mul (daily_return (feat r)) (Fin 100);
              previous_close := at_ (Pd.shift (column feat_close df)) i;
              current_close := feat_close r |} |}.
Proof.
  intros H. unfold risk_frame. cbv zeta.
  rewrite nth_error_indexed, H. reflexivity.
Qed.

Lemma div_by_positive (a b : Q) :
  0 < b -> F.div (Fin a) (Fin b) = Fin (Qred (a / b)).
Proof.
  intros Hb. unfold F.div.
  destruct (Qeq_bool b 0) eqn:E; [|reflexivity].
  apply Qeq_bool_iff in E. rewrite E in Hb. exfalso. exact (Qlt_irrefl 0 Hb).
Qed.

Section Positive.

Variable ln : Q -> Q.
Variable sqrt : Q -> Q.
Variable pad : bool.
Variable df : list PriceRow.
Hypothesis closes_positive : Forall (fun r => 0 < close r) df.

Let frame := build_features ln sqrt pad df.

Lemma close_positive (i : nat) (r : PriceRow) :
  nth_error df i = Some r -> 0 < close r.
Proof.
  intros H. apply nth_error_In in H.
  rewrite List.Forall_forall in closes_positive.
  apply closes_positive. exact H.
Qed.

(** The row of the risk frame for the point after [p]. *)
Lemma risk_row_next (t : Q) (i : nat) (p c : PriceRow) :
  nth_error df i = Some p -> nth_error df (S i) = Some c ->
  nth_error (risk_frame frame t) (S i)
  = Some {| risk_metal_id := metal_id c;
            risk_date := date c;
            risk_close := Fin (close c);
            risk_daily_return := Fin (Qred (Qred (close c / close p) + - 1));
            risk_vals := {|
              is_risk_event :=
                Qle_bool (Qred (Qred (close c / close p) + - 1)) t;
              price_change_pct :=
                Fin (Qred (Qred (Qred (close c / close p) + - 1) * 100));
              previous_close := Fin (close p);
              current_close := Fin (close c) |} |}.
Proof.
  intros Hp Hc.
  destruct (nth_error_build_features ln sqrt pad df (S i) c Hc)
    as (fc & Hfc & Hpc & Hdr & _).
  destruct (nth_error_build_features ln sqrt pad df i p Hp)
    as (fp & Hfp & Hpp & _).
  fold frame in Hfc, Hfp.
  rewrite (nth_error_risk_frame frame t (S i) fc Hfc).
  assert (Hlen : (S i < List.length (column feat_close frame))%nat).
  { unfold column. rewrite length_map. apply nth_error_Some.
    rewrite Hfc. discriminate. }
  rewrite PdFacts.at_shift_S by exact Hlen.
  rewrite (at_column feat_close frame i fp Hfp).
  rewrite Hdr, (ReturnFacts.pct_change_next pad df i p c Hp Hc).
  rewrite (div_by_positive _ _ (close_positive i p Hp)).
  unfold feat_close. rewrite Hpc, Hpp. reflexivity.
Qed.

Lemma risk_first_dropped (t : Q) (r : RiskRow) :
  hd_error (risk_frame frame t) = Some r -> risk_complete r = false.
Proof.
  intros H. destruct frame as [|f0 fs]; [discriminate|].
  unfold risk_frame in H. cbn [List.length seq combine map hd_error] in H.
  injection H as <-. reflexivity.
Qed.

Lemma risk_next_kept (t : Q) (i : nat) (r : RiskRow) :
  nth_error (risk_frame frame t) (S i) = Some r -> risk_complete r = true.
Proof.
  intros H.
  assert (Hlen : (S i < List.length df)%nat).
  { rewrite <- (length_build_features ln sqrt pad df).
    fold frame. rewrite <- (length_risk_frame frame t).
    apply nth_error_Some. rewrite H. discriminate. }
  destruct (nth_error df (S i)) as [c|] eqn:Hc.
  2:{ apply nth_error_None in Hc. lia. }
  destruct (nth_error df i) as [p|] eqn:Hp.
  2:{ apply nth_error_None in Hp. lia. }
  rewrite (risk_row_next t i p c Hp Hc) in H. injection H as <-.
  reflexivity.
Qed.

Lemma build_risk_events_tail (t : Q) :
  build_risk_events frame t = tl (risk_frame frame t).
Proof.
  unfold build_risk_events. apply filter_drop_first.
  - apply risk_first_dropped.
  - apply risk_next_kept.
Qed.

End Positive.

End RiskFacts.

(** C1.  For a price series whose closes are all positive, the risk
    classifier emits one row per point from the second point on and none
    for the first: the batch has one row less than the series, and its
    row [i] belongs to point [i + 1], with [previous_close] the close of
    point [i], [current_close] the close of point [i + 1], the daily
    return [close / previous close - 1], [price_change_pct] the daily
    return times 100, and [is_risk_event] true exactly when the daily
    return is at most -0.02. *)
Theorem risk_events_one_per_following_point
    (ln sqrt : Q -> Q) (pad : bool) (df : list PriceRow) :
  Forall (fun r => 0 < close r) df ->
  let risk := build_risk_events (build_features ln sqrt pad df) default_threshold in
  List.length risk = (List.length df - 1)%nat /\
  forall i p c,
    nth_error df i = Some p -> nth_error df (S i) = Some c ->
    exists r d pc,
      nth_error risk i = Some r /\
      risk_metal_id r = metal_id c /\
      risk_date r = date c /\
      previous_close (risk_vals r) = Fin (close p) /\
      current_close (risk_vals r) = Fin (close c) /\
      risk_daily_return r = Fin d /\
      d == close c / close p - 1 /\
      price_change_pct (risk_vals r) = Fin pc /\
      pc == d * 100 /\
      (is_risk_event (risk_vals r) = true <-> d <= - (2 # 100)).
Proof.
  intros Hpos risk. subst risk.
  rewrite (RiskFacts.build_risk_events_tail ln sqrt pad df Hpos).
  split.
  - destruct (risk_frame (build_features ln sqrt pad df) default_threshold)
      as [|r0 rs] eqn:E.
    + apply (f_equal (@List.length _)) in E.
      rewrite RiskFacts.length_risk_frame, length_build_features in E.
      rewrite E. reflexivity.
    + apply (f_equal (@List.length _)) in E.
      rewrite RiskFacts.length_risk_frame, length_build_features in E.
      rewrite E. cbn [tl List.length]. lia.
  - intros i p c Hp Hc. rewrite nth_error_tl.
    rewrite (RiskFacts.risk_row_next ln sqrt pad df Hpos _ i p c Hp Hc).
    do 3 eexists. split; [reflexivity|].
    cbn [risk_metal_id risk_date risk_vals risk_daily_return previous_close
         current_close price_change_pct is_risk_event].
    repeat (split; [reflexivity|]).
    split.
    { rewrite !Qred_correct. reflexivity. }
    split; [reflexivity|].
    split.
    { rewrite (Qred_correct (_ * 100)). reflexivity. }
    unfold default_threshold. apply Qle_bool_iff.
Qed.

Lemma risk_events_one_per_following_point_witness :
  Forall (fun r => 0 < close r) sample_series /\
  List.length
    (build_risk_events (build_features stand_in stand_in true sample_series)
       default_threshold) = 2%nat.
Proof.
  assert (H : Forall (fun r => 0 < close r) sample_series).
  { repeat constructor. }
  split; [exact H|].
  exact (proj1 (risk_events_one_per_following_point
                  stand_in stand_in true sample_series H)).
Defined.

(** ** Exponential moving averages *)

Module EwmFacts.

Lemma blend_weight_nonzero (a : Q) : Qeq_bool (1 * (1 - a) + a) 0 = false.
Proof.
  destruct (Qeq_bool (1 * (1 - a) + a) 0) eqn:E; [|reflexivity].
  apply Qeq_bool_iff in E.
  assert (H : 1 * (1 - a) + a == 1) by ring.
  rewrite H in E. discriminate E.
Qed.

Lemma step_observation (a w x : Q) :
  exists e, Ewm.step a (Fin w) 1 (Fin x) = (Fin e, 1) /\
            e == a * x + (1 - a) * w.
Proof.
  unfold Ewm.step. cbn [F.notna F.isna negb F.ne].
  destruct (Qeq_bool w x) eqn:E; cbn [negb].
  - exists w. split; [reflexivity|].
    apply Qeq_bool_iff in E. rewrite <- E. ring.
  - cbn [F.mul F.add F.div]. rewrite blend_weight_nonzero.
    eexists. split; [reflexivity|].
    rewrite !Qred_correct. field.
    intros H. pose proof (blend_weight_nonzero a) as Hn.
    apply Qeq_bool_neq in Hn. apply Hn. rewrite <- H. ring.
Qed.

Lemma go_follows (a : Q) (s : Series) :
  Forall F.is_finite s ->
  forall w, ema_follows a w s (Ewm.go a (Fin w) 1 s).
Proof.
  induction 1 as [|x s Hx Hs IH]; intros w; [constructor|].
  destruct x as [| | |x]; try contradiction.
  cbn [Ewm.go].
  destruct (step_observation a w x) as (e & He & Hrec).
  rewrite He. cbn [fst snd]. constructor; [exact Hrec|apply IH].
Qed.

Lemma follows_length a w xs es : ema_follows a w xs es -> List.length es = List.length xs.
Proof. induction 1; simpl; congruence. Qed.

Lemma follows_finite a w xs es :
  ema_follows a w xs es ->
  forall i, (i < List.length xs)%nat -> exists x e, at_ xs i = Fin x /\ at_ es i = Fin e.
Proof.
  induction 1 as [|prev x e xs es He Hf IH]; intros i Hi; [simpl in Hi; lia|].
  destruct i as [|i].
  - exists x, e. split; reflexivity.
  - apply IH. simpl in Hi. lia.
Qed.

Lemma follows_step a w xs es :
  ema_follows a w xs es ->
  forall i x e e',
    (i < List.length xs)%nat ->
    at_ xs i = Fin x -> at_ (Fin w :: es) i = Fin e -> at_ es i = Fin e' ->
    e' == a * x + (1 - a) * e.
Proof.
  induction 1 as [|prev x0 e0 xs es He Hf IH]; intros i x e e' Hi Hx He0 He';
    [simpl in Hi; lia|].
  destruct i as [|i].
  - unfold at_ in *. cbn [nth] in *.
    injection Hx as <-. injection He0 as <-. injection He' as <-. exact He.
  - apply (IH i x e e'); [simpl in Hi; lia|exact Hx|exact He0|exact He'].
Qed.

Lemma length_go a w o (s : Series) : List.length (Ewm.go a w o s) = List.length s.
Proof.
  revert w o. induction s as [|x s IH]; intros w o; [reflexivity|].
  cbn [Ewm.go List.length]. rewrite IH. reflexivity.
Qed.

Lemma length_mean k (s : Series) : List.length (Ewm.mean k s) = List.length s.
Proof. destruct s; [reflexivity|]. cbn [Ewm.mean List.length]. rewrite length_go. reflexivity. Qed.

(** On a series of numbers the routine computes the recurrence. *)
Lemma mean_recurrence (k : nat) (s : Series) :
  Forall F.is_finite s ->
  satisfies_ema_recurrence (Ewm.alpha k) s (Ewm.mean k s).
Proof.
  intros Hfin. split; [apply length_mean|].
  destruct s as [|x0 s]; [split; intros; simpl in *; lia|].
  inversion Hfin as [|? ? Hx0 Hs]; subst.
  destruct x0 as [| | |x0]; try contradiction.
  pose proof (go_follows (Ewm.alpha k) s Hs x0) as Hf.
  cbn [Ewm.mean]. split.
  - intros i Hi. destruct i as [|i].
    + exists x0, x0. repeat split; reflexivity.
    + destruct (follows_finite _ _ _ _ Hf i) as (x & e & Hx & He).
      { simpl in Hi. lia. }
      exists x, e. repeat split; [exact Hx|exact He|discriminate].
  - intros i x e e' Hi Hx He He'.
    apply (follows_step _ _ _ _ Hf i x e e');
      [simpl in Hi; lia|exact Hx|exact He|exact He'].
Qed.

Lemma mean_finite (k : nat) (s : Series) :
  Forall F.is_finite s -> Forall F.is_finite (Ewm.mean k s).
Proof.
  intros Hfin. destruct s as [|x0 s]; [constructor|].
  inversion Hfin as [|? ? Hx0 Hs]; subst.
  cbn [Ewm.mean]. constructor; [exact Hx0|].
  destruct x0 as [| | |x0]; try contradiction.
  pose proof (go_follows (Ewm.alpha k) s Hs x0) as Hf.
  clear Hfin Hs Hx0. induction Hf; constructor; [exact I|assumption].
Qed.

End EwmFacts.

Lemma column_ext {A : Type} (f : A -> fval) (l : list A) (c : Series) :
  List.length c = List.length l ->
  (forall i r, nth_error l i = Some r -> f r = at_ c i) ->
  column f l = c.
Proof.
  intros Hlen H. unfold column. apply nth_error_ext. intros i.
  rewrite nth_error_map.
  destruct (nth_error l i) as [r|] eqn:E; cbn [option_map].
  - rewrite (H i r E). symmetry. apply nth_error_nth'.
    rewrite Hlen. apply nth_error_Some. rewrite E. discriminate.
  - symmetry. apply nth_error_None. rewrite Hlen.
    apply nth_error_None. exact E.
Qed.

Module MacdFacts.

Lemma finite_col_close (df : list PriceRow) : Forall F.is_finite (col_close df).
Proof. induction df; constructor; [exact I|assumption]. Qed.

Lemma finite_sub (a b : Series) :
  Forall F.is_finite a -> Forall F.is_finite b ->
  Forall F.is_finite (Pd.zip_with F.sub a b).
Proof.
  intros Ha. revert b. induction Ha as [|x a Hx Ha IH]; intros b Hb; [constructor|].
  destruct Hb as [|y b Hy Hb]; [constructor|].
  unfold Pd.zip_with. cbn [combine map fst snd]. constructor.
  - destruct x, y; try contradiction. exact I.
  - apply IH. exact Hb.
Qed.

Lemma length_macd (s : Series) (fast slow signal : nat) :
  List.length (fst (fst (calculate_macd s fast slow signal))) = List.length s /\
  List.length (snd (fst (calculate_macd s fast slow signal))) = List.length s.
Proof.
  unfold calculate_macd. cbn [fst snd].
  rewrite EwmFacts.length_mean.
  rewrite PdFacts.length_zip_with by (rewrite !EwmFacts.length_mean; reflexivity).
  rewrite EwmFacts.length_mean. split; reflexivity.
Qed.

Lemma finite_macd (s : Series) (fast slow signal : nat) :
  Forall F.is_finite s ->
  Forall F.is_finite (fst (fst (calculate_macd s fast slow signal))).
Proof.
  intros H. unfold calculate_macd. cbn [fst snd].
  apply finite_sub; apply EwmFacts.mean_finite; exact H.
Qed.

End MacdFacts.

(** C4.  The exponential moving averages the engine emits follow the
    recurrence exactly (up to equality of rationals): [ema_12] and
    [ema_26] over the closes with [a = 2/(12+1)] and [a = 2/(26+1)], and
    the MACD signal line over the [macd] values with [a = 2/(9+1)]; each
    starts at the first observation, continues with
    [a * observation + (1 - a) * previous value], and is a number at every
    index, the first included. *)
Theorem ema_columns_follow_recurrence
    (ln sqrt : Q -> Q) (pad : bool) (df : list PriceRow) :
  let frame := build_features ln sqrt pad df in
  satisfies_ema_recurrence (2 / (12 + 1)) (col_close df)
    (column (fun r => ema_12 (feat r)) frame) /\
  satisfies_ema_recurrence (2 / (26 + 1)) (col_close df)
    (column (fun r => ema_26 (feat r)) frame) /\
  satisfies_ema_recurrence (2 / (9 + 1))
    (column (fun r => macd (feat r)) frame)
    (column (fun r => macd_signal (feat r)) frame).
Proof.
  intros frame.
  assert (Hrow : forall i fr, nth_error frame i = Some fr ->
            exists r, nth_error df i = Some r).
  { intros i fr H. destruct (nth_error df i) as [r|] eqn:E; [eauto|].
    apply nth_error_None in E.
    rewrite <- (length_build_features ln sqrt pad df) in E.
    apply nth_error_None in E. fold frame in E. congruence. }
  assert (Hcol : forall (f : FeatRow -> fval) (c : Series),
            List.length c = List.length df ->
            (forall i r fr, nth_error df i = Some r ->
                            nth_error frame i = Some fr -> f fr = at_ c i) ->
            column f frame = c).
  { intros f c Hlen H. apply column_ext.
    - unfold frame. rewrite length_build_features. exact Hlen.
    - intros i fr Hfr. destruct (Hrow i fr Hfr) as [r Hr]. eapply H; eauto. }
  assert (Hlenc : List.length (col_close df) = List.length df).
  { unfold col_close, column. apply length_map. }
  destruct (MacdFacts.length_macd (col_close df) 12 26 9) as [Hlm Hls].
  assert (H12 : column (fun r => ema_12 (feat r)) frame = Ewm.mean 12 (col_close df)).
  { apply Hcol; [rewrite EwmFacts.length_mean; exact Hlenc|].
    intros i r fr Hr Hfr.
    destruct (nth_error_build_features ln sqrt pad df i r Hr)
      as (fr' & Hfr' & _ & _ & H & _).
    fold frame in Hfr'. congruence. }
  assert (H26 : column (fun r => ema_26 (feat r)) frame = Ewm.mean 26 (col_close df)).
  { apply Hcol; [rewrite EwmFacts.length_mean; exact Hlenc|].
    intros i r fr Hr Hfr.
    destruct (nth_error_build_features ln sqrt pad df i r Hr)
      as (fr' & Hfr' & _ & _ & _ & H & _).
    fold frame in Hfr'. congruence. }
  assert (Hm : column (fun r => macd (feat r)) frame
               = fst (fst (calculate_macd (col_close df) 12 26 9))).
  { apply Hcol; [rewrite Hlm; exact Hlenc|].
    intros i r fr Hr Hfr.
    destruct (nth_error_build_features ln sqrt pad df i r Hr)
      as (fr' & Hfr' & _ & _ & _ & _ & _ & H & _).
    fold frame in Hfr'. congruence. }
  assert (Hs : column (fun r => macd_signal (feat r)) frame
               = snd (fst (calculate_macd (col_close df) 12 26 9))).
  { apply Hcol; [rewrite Hls; exact Hlenc|].
    intros i r fr Hr Hfr.
    destruct (nth_error_build_features ln sqrt pad df i r Hr)
      as (fr' & Hfr' & _ & _ & _ & _ & _ & _ & H & _).
    fold frame in Hfr'. congruence. }
  rewrite H12, H26, Hm, Hs. split; [|split].
  - apply (EwmFacts.mean_recurrence 12), MacdFacts.finite_col_close.
  - apply (EwmFacts.mean_recurrence 26), MacdFacts.finite_col_close.
  - apply (EwmFacts.mean_recurrence 9
             (fst (fst (calculate_macd (col_close df) 12 26 9)))).
    apply MacdFacts.finite_macd, MacdFacts.finite_col_close.
Qed.

(** ** Rolling means *)

Module RollingFacts.

Lemma length_rolling_mean (k : nat) (s : Series) :
  List.length (Pd.rolling_mean k s) = List.length s.
Proof. unfold Pd.rolling_mean. rewrite length_map, length_seq. reflexivity. Qed.

Lemma at_rolling_mean (k : nat) (s : Series) (i : nat) :
  (i < List.length s)%nat ->
  at_ (Pd.rolling_mean k s) i
  = if Pd.window_full k (Pd.window k i s) then Pd.mean (Pd.window k i s) else NaN.
Proof.
  intros H. unfold at_, Pd.rolling_mean.
  apply nth_error_nth. rewrite nth_error_map.
  rewrite (nth_error_nth' _ 0%nat) by (rewrite length_seq; exact H).
  rewrite seq_nth by exact H. reflexivity.
Qed.

Lemma Forall_window (P : fval -> Prop) (k i : nat) (s : Series) :
  Forall P s -> Forall P (Pd.window k i s).
Proof.
  intros H. unfold Pd.window. apply Forall_take, Forall_drop, H.
Qed.

Lemma window_full_spec (k : nat) (w : Series) :
  Pd.window_full k w = true -> List.length w = k.
Proof.
  unfold Pd.window_full. intros H. apply andb_true_iff in H.
  destruct H as [H _]. apply Nat.eqb_eq. exact H.
Qed.

Lemma fold_add_nonneg (w : Series) :
  Forall is_nonneg w ->
  forall a, 0 <= a -> exists t, fold_left F.add w (Fin a) = Fin t /\ 0 <= t.
Proof.
  induction 1 as [|x w Hx Hw IH]; intros a Ha; cbn [fold_left].
  - exists a. split; [reflexivity|exact Ha].
  - destruct x as [| | |x]; try contradiction. cbn [F.add].
    apply IH. rewrite Qred_correct.
    change 0 with (0 + 0). apply Qplus_le_compat; assumption.
Qed.

Lemma fold_add_zero (w : Series) :
  Forall is_zero w ->
  forall a, a == 0 -> exists t, fold_left F.add w (Fin a) = Fin t /\ t == 0.
Proof.
  induction 1 as [|x w Hx Hw IH]; intros a Ha; cbn [fold_left].
  - exists a. split; [reflexivity|exact Ha].
  - destruct x as [| | |x]; try contradiction. cbn [F.add].
    apply IH. rewrite Qred_correct. cbn [is_zero] in Hx. rewrite Ha, Hx. reflexivity.
Qed.

Lemma count_nonzero (k : nat) :
  (1 <= k)%nat -> Qeq_bool (inject_Z (Z.of_nat k)) 0 = false.
Proof.
  intros H. destruct (Qeq_bool (inject_Z (Z.of_nat k)) 0) eqn:E; [|reflexivity].
  apply Qeq_bool_iff in E. unfold Qeq, inject_Z in E. simpl in E. lia.
Qed.

Lemma count_positive (k : nat) : (1 <= k)%nat -> 0 < inject_Z (Z.of_nat k).
Proof. intros H. unfold Qlt, inject_Z. simpl. lia. Qed.

(** A rolling mean of numbers that are not negative is missing or a
    number that is not negative. *)
Lemma rolling_mean_nonneg (k : nat) (s : Series) (i : nat) :
  (1 <= k)%nat -> Forall is_nonneg s -> (i < List.length s)%nat ->
  is_nonneg_or_nan (at_ (Pd.rolling_mean k s) i).
Proof.
  intros Hk Hs Hi. rewrite at_rolling_mean by exact Hi.
  destruct (Pd.window_full k (Pd.window k i s)) eqn:E; [|exact I].
  apply window_full_spec in E.
  destruct (fold_add_nonneg _ (Forall_window is_nonneg k i s Hs) 0 (Qle_refl 0))
    as (t & Ht & Ht0).
  unfold Pd.mean, Pd.fsum, F.of_nat. rewrite Ht, E. cbn [F.div].
  rewrite (count_nonzero k Hk). cbn [is_nonneg_or_nan].
  rewrite Qred_correct. apply Qle_shift_div_l; [apply count_positive, Hk|].
  rewrite Qmult_0_l. exact Ht0.
Qed.

Lemma length_window (k i : nat) (s : Series) :
  (k <= S i)%nat -> (i < List.length s)%nat ->
  List.length (Pd.window k i s) = k.
Proof.
  intros Hk Hi. unfold Pd.window. rewrite length_firstn, length_skipn. lia.
Qed.

Lemma nth_window (k i t : nat) (s : Series) :
  (k <= S i)%nat -> (t < k)%nat ->
  nth t (Pd.window k i s) NaN = at_ s (S i - k + t).
Proof.
  intros Hk Ht. unfold Pd.window, at_. rewrite nth_firstn.
  replace (t <? S i - (S i - k))%nat with true
    by (symmetry; apply Nat.ltb_lt; lia).
  apply nth_skipn.
Qed.

(** A rolling mean over a full window of zeros is zero. *)
Lemma rolling_mean_zero (k : nat) (s : Series) (i : nat) :
  (1 <= k)%nat -> (k <= S i)%nat -> (i < List.length s)%nat ->
  (forall j, (S i - k <= j)%nat -> (j <= i)%nat -> is_zero (at_ s j)) ->
  exists m, at_ (Pd.rolling_mean k s) i = Fin m /\ m == 0.
Proof.
  intros Hk Hki Hi Hz. rewrite at_rolling_mean by exact Hi.
  assert (Hw : Forall is_zero (Pd.window k i s)).
  { apply List.Forall_nth. intros t d Ht.
    rewrite length_window in Ht by assumption.
    rewrite (nth_indep _ d NaN) by (rewrite length_window; assumption).
    rewrite nth_window by assumption. apply Hz; lia. }
  assert (Hfull : Pd.window_full k (Pd.window k i s) = true).
  { unfold Pd.window_full. rewrite length_window by assumption.
    rewrite Nat.eqb_refl. cbn [andb]. apply forallb_forall.
    intros x Hx. rewrite List.Forall_forall in Hw. specialize (Hw x Hx).
    destruct x; try contradiction. reflexivity. }
  rewrite Hfull.
  destruct (fold_add_zero _ Hw 0 (Qeq_refl 0)) as (t & Ht & Ht0).
  unfold Pd.mean, Pd.fsum, F.of_nat. rewrite Ht.
  rewrite length_window by assumption. cbn [F.div].
  rewrite (count_nonzero k Hk). eexists. split; [reflexivity|].
  rewrite Qred_correct, Ht0. unfold Qdiv. apply Qmult_0_l.
Qed.

End RollingFacts.

(** ** Relative strength index *)

Module RsiFacts.

Import RollingFacts.

Lemma length_diff (s : Series) : List.length (Pd.diff s) = List.length s.
Proof.
  unfold Pd.diff. apply PdFacts.length_zip_with.
  symmetry. apply PdFacts.length_shift.
Qed.

Lemma length_gains (d : Series) : List.length (rsi_gains d) = List.length d.
Proof. unfold rsi_gains, Pd.where_. apply length_map. Qed.

Lemma length_losses (d : Series) : List.length (rsi_losses d) = List.length d.
Proof. unfold rsi_losses, Pd.where_. rewrite !length_map. reflexivity. Qed.

Lemma Qltb_true (a b : Q) : F.Qltb a b = true -> a < b.
Proof.
  unfold F.Qltb. intros H. apply negb_true_iff in H.
  apply Qnot_le_lt. intros Hle. apply Qle_bool_iff in Hle. congruence.
Qed.

Lemma Qltb_false (a b : Q) : F.Qltb a b = false -> b <= a.
Proof.
  unfold F.Qltb. intros H. apply negb_false_iff in H.
  apply Qle_bool_iff. exact H.
Qed.

(** The first difference is missing, the others are differences of
    consecutive closes. *)
Lemma diff_first (df : list PriceRow) :
  at_ (Pd.diff (col_close df)) 0 = NaN.
Proof. destruct df as [|r df]; reflexivity. Qed.

Lemma diff_next (df : list PriceRow) (i : nat) (p c : PriceRow) :
  nth_error df i = Some p -> nth_error df (S i) = Some c ->
  at_ (Pd.diff (col_close df)) (S i) = Fin (Qred (close c + - close p)).
Proof.
  intros Hp Hc.
  assert (Hlen : (S i < List.length (col_close df))%nat).
  { unfold col_close, column. rewrite length_map.
    apply nth_error_Some. rewrite Hc. discriminate. }
  unfold Pd.diff. rewrite PdFacts.at_zip_with.
  2: exact Hlen.
  2: rewrite PdFacts.length_shift; exact Hlen.
  rewrite PdFacts.at_shift_S by exact Hlen. unfold col_close.
  rewrite (at_column _ df (S i) c Hc), (at_column _ df i p Hp). reflexivity.
Qed.

Lemma diff_fin_or_nan (df : list PriceRow) :
  Forall is_fin_or_nan (Pd.diff (col_close df)).
Proof.
  apply List.Forall_nth. intros i d Hi.
  rewrite (nth_indep _ d NaN) by exact Hi.
  rewrite length_diff in Hi. unfold col_close, column in Hi.
  rewrite length_map in Hi.
  change (is_fin_or_nan (at_ (Pd.diff (col_close df)) i)).
  destruct i as [|i]; [rewrite diff_first; exact I|].
  destruct (nth_error df (S i)) as [c|] eqn:Hc.
  2:{ apply nth_error_None in Hc. lia. }
  destruct (nth_error df i) as [p|] eqn:Hp.
  2:{ apply nth_error_None in Hp. lia. }
  rewrite (diff_next df i p c Hp Hc). exact I.
Qed.

Lemma gains_nonneg (delta : Series) :
  Forall is_fin_or_nan delta -> Forall is_nonneg (rsi_gains delta).
Proof.
  induction 1 as [|x s Hx Hs IH]; [constructor|].
  unfold rsi_gains, Pd.where_. cbn [map]. constructor; [|exact IH].
  destruct x as [| | |q]; try contradiction; cbn.
  - apply Qle_refl.
  - destruct (F.Qltb 0 q) eqn:E; cbn.
    + apply Qlt_le_weak, Qltb_true, E.
    + apply Qle_refl.
Qed.

Lemma losses_nonneg (delta : Series) :
  Forall is_fin_or_nan delta -> Forall is_nonneg (rsi_losses delta).
Proof.
  induction 1 as [|x s Hx Hs IH]; [constructor|].
  unfold rsi_losses, Pd.where_. cbn [map]. constructor; [|exact IH].
  destruct x as [| | |q]; try contradiction; cbn.
  - discriminate.
  - destruct (F.Qltb q 0) eqn:E; cbn.
    + apply Qltb_true in E. lra.
    + discriminate.
Qed.

(** What the last line of [calculate_rsi] gives on two averages that
    are not negative: nothing, or a number between 0 and 100. *)
Lemma rsi_of_rs_bounds (g l : fval) :
  is_nonneg_or_nan g -> is_nonneg_or_nan l ->
  rsi_of_rs (F.div g l) = NaN \/
  exists r, rsi_of_rs (F.div g l) = Fin r /\ 0 <= r /\ r <= 100.
Proof.
  intros Hg Hl.
  destruct g as [| | |a]; try contradiction; [left; reflexivity|].
  destruct l as [| | |b]; try contradiction; [left; reflexivity|].
  cbn in Hg, Hl. cbn [F.div].
  destruct (Qeq_bool b 0) eqn:Eb.
  - destruct (Qeq_bool a 0) eqn:Ea; [left; reflexivity|].
    unfold F.inf_of_sign. destruct (F.Qltb 0 a) eqn:Epos.
    + right. exists 100. split; [reflexivity|]. split; discriminate.
    + exfalso. apply Qltb_false in Epos. apply Qeq_bool_neq in Ea.
      apply Ea. apply Qle_antisym; assumption.
  - right. apply Qeq_bool_neq in Eb.
    assert (Hb : 0 < b).
    { apply Qle_lt_or_eq in Hl. destruct Hl as [Hl|Hl]; [exact Hl|].
      exfalso. apply Eb. symmetry. exact Hl. }
    assert (Hrs : 0 <= Qred (a / b)).
    { rewrite Qred_correct. apply Qle_shift_div_l; [exact Hb|]. lra. }
    unfold rsi_of_rs. cbn [F.add].
    set (x := Qred (1 + Qred (a / b))).
    assert (Hx : 1 <= x).
    { unfold x. rewrite Qred_correct. lra. }
    cbn [F.div].
    destruct (Qeq_bool x 0) eqn:Ex.
    { apply Qeq_bool_iff in Ex. lra. }
    cbn [F.sub F.neg F.add]. eexists. split; [reflexivity|].
    rewrite !Qred_correct.
    assert (H0 : 0 <= 100 / x).
    { apply Qle_shift_div_l; lra. }
    assert (H100 : 100 / x <= 100).
    { apply Qle_shift_div_r; lra. }
    split; lra.
Qed.

Lemma length_rsi_gain (s : Series) (k : nat) :
  List.length (rsi_gain s k) = List.length s.
Proof.
  unfold rsi_gain. rewrite length_rolling_mean.
  unfold Pd.where_. rewrite length_map. apply length_diff.
Qed.

Lemma length_rsi_loss (s : Series) (k : nat) :
  List.length (rsi_loss s k) = List.length s.
Proof.
  unfold rsi_loss. rewrite length_rolling_mean.
  unfold Pd.where_. rewrite !length_map. apply length_diff.
Qed.

Lemma at_calculate_rsi (s : Series) (k i : nat) :
  (i < List.length s)%nat ->
  at_ (calculate_rsi s k) i
  = rsi_of_rs (F.div (at_ (rsi_gain s k) i) (at_ (rsi_loss s k) i)).
Proof.
  intros H. unfold calculate_rsi.
  rewrite at_map.
  2:{ rewrite PdFacts.length_zip_with; rewrite length_rsi_gain;
      [exact H|symmetry; apply length_rsi_loss]. }
  rewrite PdFacts.at_zip_with;
    [reflexivity|rewrite length_rsi_gain; exact H|rewrite length_rsi_loss; exact H].
Qed.

Lemma rsi_gain_nonneg (df : list PriceRow) (i : nat) :
  (i < List.length df)%nat ->
  is_nonneg_or_nan (at_ (rsi_gain (col_close df) 14) i).
Proof.
  intros H. unfold rsi_gain. apply rolling_mean_nonneg; [lia| |].
  - apply gains_nonneg, diff_fin_or_nan.
  - fold (rsi_gains (Pd.diff (col_close df))).
    rewrite length_gains, length_diff. unfold col_close, column.
    rewrite length_map. exact H.
Qed.

Lemma rsi_loss_nonneg (df : list PriceRow) (i : nat) :
  (i < List.length df)%nat ->
  is_nonneg_or_nan (at_ (rsi_loss (col_close df) 14) i).
Proof.
  intros H. unfold rsi_loss. apply rolling_mean_nonneg; [lia| |].
  - apply losses_nonneg, diff_fin_or_nan.
  - fold (rsi_losses (Pd.diff (col_close df))).
    rewrite length_losses, length_diff. unfold col_close, column.
    rewrite length_map. exact H.
Qed.

End RsiFacts.

(** C6.  Wherever [rsi_14] is defined it is a number between 0 and 100
    (it is never infinite), and at an index where the 14-day average loss
    is 0 and the average gain is positive it is exactly 100. *)
Theorem rsi_bounded_and_saturating
    (ln sqrt : Q -> Q) (pad : bool) (df : list PriceRow) :
  let frame := build_features ln sqrt pad df in
  (forall i fr,
     nth_error frame i = Some fr ->
     rsi_14 (feat fr) = NaN \/
     exists r, rsi_14 (feat fr) = Fin r /\ 0 <= r /\ r <= 100) /\
  (forall i fr g l,
     nth_error frame i = Some fr ->
     at_ (rsi_gain (col_close df) 14) i = Fin g ->
     at_ (rsi_loss (col_close df) 14) i = Fin l ->
     0 < g -> l == 0 ->
     rsi_14 (feat fr) = Fin 100).
Proof.
  intros frame.
  assert (Hrsi : forall i fr, nth_error frame i = Some fr ->
            (i < List.length df)%nat /\
            rsi_14 (feat fr)
            = rsi_of_rs (F.div (at_ (rsi_gain (col_close df) 14) i)
                               (at_ (rsi_loss (col_close df) 14) i))).
  { intros i fr Hfr.
    assert (Hi : (i < List.length df)%nat).
    { rewrite <- (length_build_features ln sqrt pad df).
      apply nth_error_Some. fold frame. rewrite Hfr. discriminate. }
    split; [exact Hi|].
    destruct (nth_error df i) as [r|] eqn:Hr.
    2:{ apply nth_error_None in Hr. lia. }
    destruct (nth_error_build_features ln sqrt pad df i r Hr)
      as (fr' & Hfr' & _ & _ & _ & _ & H & _).
    fold frame in Hfr'. assert (fr' = fr) by congruence. subst fr'.
    rewrite H. apply RsiFacts.at_calculate_rsi.
    unfold col_close, column. rewrite length_map. exact Hi. }
  split.
  - intros i fr Hfr. destruct (Hrsi i fr Hfr) as [Hi ->].
    apply RsiFacts.rsi_of_rs_bounds.
    + apply RsiFacts.rsi_gain_nonneg, Hi.
    + apply RsiFacts.rsi_loss_nonneg, Hi.
  - intros i fr g l Hfr Hg Hl Hpos Hzero.
    destruct (Hrsi i fr Hfr) as [_ ->]. rewrite Hg, Hl. cbn [F.div].
    apply Qeq_bool_iff in Hzero. rewrite Hzero.
    destruct (Qeq_bool g 0) eqn:Eg.
    { apply Qeq_bool_iff in Eg. lra. }
    unfold F.inf_of_sign.
    destruct (F.Qltb 0 g) eqn:E; [reflexivity|].
    apply RsiFacts.Qltb_false in E. lra.
Qed.

(** C9.  When no close changes over the fourteen daily changes of the
    RSI window that ends at index [i] (so that the average gain and the
    average loss are both 0 there), [rsi_14] at [i] is missing, not 100,
    and the feature row of that index is not in the batch the writer
    persists. *)
Theorem constant_window_rsi_missing
    (ln sqrt : Q -> Q) (pad : bool) (df : list PriceRow) (i : nat) (fr : FeatRow) :
  (13 <= i)%nat ->
  nth_error (build_features ln sqrt pad df) i = Some fr ->
  (forall j p c,
     (i - 13 <= S j)%nat -> (S j <= i)%nat ->
     nth_error df j = Some p -> nth_error df (S j) = Some c ->
     close c == close p) ->
  rsi_14 (feat fr) = NaN /\
  ~ In fr (dropna (build_features ln sqrt pad df)).
Proof.
  intros Hi13 Hfr Hconst.
  assert (Hi : (i < List.length df)%nat).
  { rewrite <- (length_build_features ln sqrt pad df).
    apply nth_error_Some. rewrite Hfr. discriminate. }
  assert (Hlenc : List.length (col_close df) = List.length df).
  { unfold col_close, column. apply length_map. }
  assert (Hdelta : forall j, (i - 13 <= j)%nat -> (j <= i)%nat ->
            at_ (Pd.diff (col_close df)) j = NaN \/
            exists d, at_ (Pd.diff (col_close df)) j = Fin d /\ d == 0).
  { intros j Hlo Hhi. destruct j as [|j].
    - left. apply RsiFacts.diff_first.
    - right.
      destruct (nth_error df (S j)) as [c|] eqn:Hc.
      2:{ apply nth_error_None in Hc. lia. }
      destruct (nth_error df j) as [p|] eqn:Hp.
      2:{ apply nth_error_None in Hp. lia. }
      rewrite (RsiFacts.diff_next df j p c Hp Hc). eexists. split; [reflexivity|].
      rewrite Qred_correct, (Hconst j p c Hlo Hhi Hp Hc). ring. }
  assert (Hrsi : rsi_14 (feat fr) = NaN).
  { destruct (nth_error df i) as [r|] eqn:Hr.
    2:{ apply nth_error_None in Hr. lia. }
    destruct (nth_error_build_features ln sqrt pad df i r Hr)
      as (fr' & Hfr' & _ & _ & _ & _ & H & _).
    assert (fr' = fr) by congruence. subst fr'. rewrite H.
    rewrite RsiFacts.at_calculate_rsi by (rewrite Hlenc; exact Hi).
    destruct (RollingFacts.rolling_mean_zero 14
                (rsi_gains (Pd.diff (col_close df))) i)
      as (g & Hg & Hg0); [lia|lia| | |].
    { rewrite RsiFacts.length_gains, RsiFacts.length_diff, Hlenc. exact Hi. }
    { intros j Hlo Hhi. unfold rsi_gains, Pd.where_.
      rewrite at_map by (rewrite RsiFacts.length_diff, Hlenc; lia).
      destruct (Hdelta j) as [->|(d & -> & Hd)]; [lia|lia|reflexivity|].
      cbn. unfold F.Qltb.
      replace (Qle_bool d 0) with true; [reflexivity|].
      symmetry. apply Qle_bool_iff. rewrite Hd. apply Qle_refl. }
    destruct (RollingFacts.rolling_mean_zero 14
                (rsi_losses (Pd.diff (col_close df))) i)
      as (l & Hl & Hl0); [lia|lia| | |].
    { rewrite RsiFacts.length_losses, RsiFacts.length_diff, Hlenc. exact Hi. }
    { intros j Hlo Hhi. unfold rsi_losses, Pd.where_.
      rewrite at_map
        by (rewrite length_map, RsiFacts.length_diff, Hlenc; lia).
      rewrite at_map by (rewrite RsiFacts.length_diff, Hlenc; lia).
      destruct (Hdelta j) as [->|(d & -> & Hd)]; [lia|lia|reflexivity|].
      cbn. unfold F.Qltb.
      replace (Qle_bool 0 d) with true; [reflexivity|].
      symmetry. apply Qle_bool_iff. rewrite Hd. apply Qle_refl. }
    unfold rsi_gain, rsi_loss.
    fold (rsi_gains (Pd.diff (col_close df))).
    fold (rsi_losses (Pd.diff (col_close df))).
    rewrite Hg, Hl. cbn [F.div].
    apply Qeq_bool_iff in Hg0, Hl0. rewrite Hg0, Hl0. reflexivity. }
  split; [exact Hrsi|].
  intros Hin. unfold dropna in Hin. apply filter_In in Hin.
  destruct Hin as [_ Hall]. rewrite forallb_forall in Hall.
  assert (Hn : F.notna (rsi_14 (feat fr)) = true).
  { apply Hall. unfold feature_columns. cbn [In]. tauto. }
  rewrite Hrsi in Hn. discriminate Hn.
Qed.

Lemma rsi_bounded_and_saturating_witness :
  exists fr,
    nth_error (build_features stand_in stand_in true rising_series) 14 = Some fr /\
    rsi_14 (feat fr) = Fin 100.
Proof.
  eexists. split; [vm_compute; reflexivity|].
  eapply (proj2 (rsi_bounded_and_saturating stand_in stand_in true rising_series) 14%nat).
  - vm_compute. reflexivity.
  - vm_compute. reflexivity.
  - vm_compute. reflexivity.
  - reflexivity.
  - reflexivity.
Defined.

Lemma constant_window_rsi_missing_witness :
  exists fr,
    nth_error (build_features stand_in stand_in true flat_series) 14 = Some fr /\
    rsi_14 (feat fr) = NaN /\
    ~ In fr (dropna (build_features stand_in stand_in true flat_series)).
Proof.
  eexists. split; [vm_compute; reflexivity|].
  apply (constant_window_rsi_missing stand_in stand_in true flat_series 14%nat).
  - lia.
  - vm_compute. reflexivity.
  - intros j p c _ _ Hp Hc.
    assert (Hall : Forall (fun r => close r = 100) flat_series).
    { repeat constructor. }
    rewrite List.Forall_forall in Hall.
    rewrite (Hall p (nth_error_In _ _ Hp)), (Hall c (nth_error_In _ _ Hc)).
    reflexivity.
Defined.

(** ** Tables with [ON CONFLICT DO NOTHING] *)

Section TableFacts.

Context {V : Type}.
Implicit Types (t : gmap (Z * Z) V) (k : Z * Z) (v : V).

Lemma on_conflict_present k v t :
  is_Some (t !! k) -> on_conflict_do_nothing k v t = t.
Proof. intros [x Hx]. unfold on_conflict_do_nothing. rewrite Hx. reflexivity. Qed.

Lemma on_conflict_keeps k v t k' x :
  t !! k' = Some x -> on_conflict_do_nothing k v t !! k' = Some x.
Proof.
  intros H. unfold on_conflict_do_nothing.
  destruct (t !! k) eqn:E; [exact H|].
  rewrite lookup_insert_ne; [exact H|]. intros ->. congruence.
Qed.

Lemma on_conflict_has_key k v t : is_Some (on_conflict_do_nothing k v t !! k).
Proof.
  unfold on_conflict_do_nothing. destruct (t !! k) eqn:E.
  - rewrite E. eauto.
  - rewrite lookup_insert_eq. eauto.
Qed.

Lemma on_conflict_origin k v t k' x :
  on_conflict_do_nothing k v t !! k' = Some x ->
  t !! k' = Some x \/ (t !! k' = None /\ k' = k /\ x = v).
Proof.
  unfold on_conflict_do_nothing. destruct (t !! k) eqn:E; [auto|].
  destruct (decide (k = k')) as [<-|Hne].
  - rewrite lookup_insert_eq. intros [= <-]. right. auto.
  - rewrite lookup_insert_ne by exact Hne. auto.
Qed.

Lemma insert_all_keeps (rows : list (Z * Z * V)) :
  forall t k x, t !! k = Some x -> insert_all rows t !! k = Some x.
Proof.
  induction rows as [|[k0 v0] rows IH]; intros t k x H; [exact H|].
  cbn [insert_all fold_left fst snd]. apply IH, on_conflict_keeps, H.
Qed.

Lemma insert_all_has_keys (rows : list (Z * Z * V)) :
  forall t k v, In (k, v) rows -> is_Some (insert_all rows t !! k).
Proof.
  induction rows as [|[k0 v0] rows IH]; intros t k v Hin; [contradiction|].
  cbn [insert_all fold_left fst snd]. destruct Hin as [[= -> ->]|Hin].
  - destruct (on_conflict_has_key k v t) as [x Hx].
    exists x. apply insert_all_keeps, Hx.
  - apply (IH _ k v Hin).
Qed.

Lemma insert_all_present (rows : list (Z * Z * V)) :
  forall t, (forall k v, In (k, v) rows -> is_Some (t !! k)) ->
            insert_all rows t = t.
Proof.
  induction rows as [|[k0 v0] rows IH]; intros t H; [reflexivity|].
  cbn [insert_all fold_left fst snd].
  rewrite on_conflict_present by (apply (H k0 v0); left; reflexivity).
  apply IH. intros k v Hin. apply (H k v). right. exact Hin.
Qed.

(** Running a batch a second time changes nothing. *)
Lemma insert_all_again (rows : list (Z * Z * V)) t :
  insert_all rows (insert_all rows t) = insert_all rows t.
Proof.
  apply insert_all_present. intros k v Hin.
  apply (insert_all_has_keys rows t k v Hin).
Qed.

(** A row found after a batch was there before or is a row of the
    batch whose key was free. *)
Lemma insert_all_origin (rows : list (Z * Z * V)) :
  forall t k x,
    insert_all rows t !! k = Some x ->
    t !! k = Some x \/ (t !! k = None /\ In (k, x) rows).
Proof.
  induction rows as [|[k0 v0] rows IH]; intros t k x H; [left; exact H|].
  cbn [insert_all fold_left fst snd] in H.
  destruct (IH _ _ _ H) as [H1|[H1 H2]].
  - destruct (on_conflict_origin _ _ _ _ _ H1) as [H3|(H3 & -> & ->)].
    + left. exact H3.
    + right. split; [exact H3|left; reflexivity].
  - right. split; [|right; exact H2].
    destruct (t !! k) as [y|] eqn:E; [|reflexivity].
    rewrite (on_conflict_keeps k0 v0 t k y E) in H1. discriminate.
Qed.

End TableFacts.

(** ** Transactions and writers *)

Module StoreFacts.

Lemma execute_records_returns {R : Type} (stmt : R -> Engine -> Engine)
    (records : list R) :
  forall fault conn,
    match fault with
    | Some n => (n <? List.length records)%nat
    | None => false
    end = false ->
    execute_records stmt fault records conn
    = (execute_all stmt records conn, Returned tt).
Proof.
  induction records as [|r records IH]; intros fault conn H; [reflexivity|].
  cbn [execute_records execute_all fold_left].
  destruct fault as [[|n]|]; [discriminate H| |].
  - apply (IH (Some n)). exact H.
  - apply (IH None). reflexivity.
Qed.

Lemma execute_records_raises {R : Type} (stmt : R -> Engine -> Engine)
    (records : list R) :
  forall n conn,
    (n < List.length records)%nat ->
    snd (execute_records stmt (Some n) records conn) = Raised.
Proof.
  induction records as [|r records IH]; intros n conn H; [cbn in H; lia|].
  cbn [execute_records]. destruct n as [|n]; [reflexivity|].
  apply IH. cbn in H. lia.
Qed.

Lemma conn_execute_returns {R : Type} (stmt : R -> Engine -> Engine)
    (records : list R) (fault : option nat) (conn : Engine) :
  fails fault records = false ->
  conn_execute stmt fault records conn
  = (execute_all stmt records conn, Returned tt).
Proof.
  destruct records as [|r records]; [discriminate|].
  intros H. unfold conn_execute. apply execute_records_returns. exact H.
Qed.

Lemma conn_execute_raises {R : Type} (stmt : R -> Engine -> Engine)
    (records : list R) (fault : option nat) (conn : Engine) :
  fails fault records = true ->
  snd (conn_execute stmt fault records conn) = Raised.
Proof.
  destruct records as [|r records]; [reflexivity|].
  intros H. unfold conn_execute. cbn [fails] in H.
  destruct fault as [n|]; [|discriminate H].
  apply execute_records_raises. apply Nat.ltb_lt. exact H.
Qed.

(** A transaction around one statement, followed by [return n]. *)
Lemma write_batch_run {R : Type} (stmt : R -> Engine -> Engine)
    (records : list R) (n : nat) (w : World) :
  write_batch stmt records n w
  = let conn := set_faults (tl (faults (db w))) (db w) in
    if fails (hd None (faults (db w))) records
    then ({| db := conn; stdout := stdout w |}, Raised)
    else ({| db := execute_all stmt records conn; stdout := stdout w |},
          Returned n).
Proof.
  unfold write_batch, mbind, M_bind, bind, mret, M_ret, ret, engine_begin.
  cbv zeta.
  destruct (fails (hd None (faults (db w))) records) eqn:E.
  - pose proof (conn_execute_raises stmt records _
                  (set_faults (tl (faults (db w))) (db w)) E) as H.
    destruct (conn_execute stmt (hd None (faults (db w))) records
                (set_faults (tl (faults (db w))) (db w))) as [c o].
    cbn [snd] in H. subst o. reflexivity.
  - rewrite (conn_execute_returns stmt records _ _ E). reflexivity.
Qed.

Lemma execute_all_features (rows : list FeatRow) :
  forall conn,
    execute_all insert_technical_features rows conn
    = {| metals := metals conn; price_data := price_data conn;
         technical_features :=
           insert_all (map feature_entry rows) (technical_features conn);
         risk_events := risk_events conn; faults := faults conn |}.
Proof.
  induction rows as [|r rows IH]; intros conn.
  - destruct conn. reflexivity.
  - cbn [execute_all fold_left map insert_all].
    fold (execute_all insert_technical_features rows
            (insert_technical_features r conn)).
    rewrite IH. reflexivity.
Qed.

Lemma execute_all_risk (rows : list RiskRow) :
  forall conn,
    execute_all insert_risk_events rows conn
    = {| metals := metals conn; price_data := price_data conn;
         technical_features := technical_features conn;
         risk_events := insert_all (map risk_entry rows) (risk_events conn);
         faults := faults conn |}.
Proof.
  induction rows as [|r rows IH]; intros conn.
  - destruct conn. reflexivity.
  - cbn [execute_all fold_left map insert_all].
    fold (execute_all insert_risk_events rows (insert_risk_events r conn)).
    rewrite IH. reflexivity.
Qed.

Lemma upsert_technical_features_run (df : list FeatRow) (w : World) :
  upsert_technical_features df w
  = let conn := set_faults (tl (faults (db w))) (db w) in
    if fails (hd None (faults (db w))) (dropna df)
    then ({| db := conn; stdout := stdout w |}, Raised)
    else ({| db := {| metals := metals conn; price_data := price_data conn;
                      technical_features :=
                        insert_all (map feature_entry (dropna df))
                                   (technical_features conn);
                      risk_events := risk_events conn;
                      faults := faults conn |};
             stdout := stdout w |},
          Returned (List.length (dropna df))).
Proof.
  change (upsert_technical_features df w)
    with (write_batch insert_technical_features (dropna df)
            (List.length (dropna df)) w).
  rewrite write_batch_run. cbv zeta.
  rewrite execute_all_features. reflexivity.
Qed.

Lemma upsert_risk_events_run (df : list FeatRow) (w : World) :
  upsert_risk_events df w
  = let conn := set_faults (tl (faults (db w))) (db w) in
    let risk := build_risk_events df default_threshold in
    if fails (hd None (faults (db w))) risk
    then ({| db := conn; stdout := stdout w |}, Raised)
    else ({| db := {| metals := metals conn; price_data := price_data conn;
                      technical_features := technical_features conn;
                      risk_events :=
                        insert_all (map risk_entry risk) (risk_events conn);
                      faults := faults conn |};
             stdout := stdout w |},
          Returned (List.length risk)).
Proof.
  change (upsert_risk_events df w)
    with (write_batch insert_risk_events
            (build_risk_events df default_threshold)
            (List.length (build_risk_events df default_threshold)) w).
  rewrite write_batch_run. cbv zeta.
  rewrite execute_all_risk. reflexivity.
Qed.

End StoreFacts.

(** ** The driver loop *)

Module DriverFacts.

Section Loop.

Variable ln : Q -> Q.
Variable sqrt : Q -> Q.
Variable pad : bool.

(** One turn of the loop of [main]. *)
Lemma main_loop_step (id : Z) (name : string) (ms : list (Z * string))
    (tf tr : nat) (w : World) :
  main_loop ln sqrt pad ((id, name) :: ms) tf tr w
  = let w1 := pop_fault (say (MetalHeader name id) w) in
    match hd None (faults (db w)) with
    | Some _ => (w1, Raised)
    | None =>
        match select_price_data id (db w) with
        | [] => main_loop ln sqrt pad ms tf tr (say NoPriceData w1)
        | df =>
            match upsert_technical_features (build_features ln sqrt pad df) w1 with
            | (w2, Raised) => (w2, Raised)
            | (w2, Returned nf) =>
                match upsert_risk_events (build_features ln sqrt pad df) w2 with
                | (w3, Raised) => (w3, Raised)
                | (w3, Returned nr) =>
                    main_loop ln sqrt pad ms (tf + nf) (tr + nr)
                      (say (InsertedRisk nr) (say (InsertedFeatures nf) w3))
                end
            end
        end
    end.
Proof.
  cbn [main_loop].
  unfold load_price_data, mbind, M_bind, bind, mret, M_ret, ret, print,
    read_sql, say, pop_fault.
  cbn [db stdout].
  destruct (hd None (faults (db w))) as [n|]; [reflexivity|].
  change (select_price_data id (set_faults (tl (faults (db w))) (db w)))
    with (select_price_data id (db w)).
  destruct (select_price_data id (db w)) as [|r df]; [reflexivity|].
  destruct (upsert_technical_features _ _) as [w2 [nf|]]; [|reflexivity].
  destruct (upsert_risk_events _ _) as [w3 [nr|]]; reflexivity.
Qed.

(** A property of the world that printing, a query and the two writers
    keep holds when the loop ends, however it ends. *)
Lemma main_loop_keeps (P : World -> Prop) :
  (forall m w, P w -> P (say m w)) ->
  (forall w, P w -> P (pop_fault w)) ->
  (forall df w, P w -> P (fst (upsert_technical_features df w))) ->
  (forall df w, P w -> P (fst (upsert_risk_events df w))) ->
  forall ms tf tr w, P w -> P (fst (main_loop ln sqrt pad ms tf tr w)).
Proof.
  intros Hsay Hpop Hfeat Hrisk.
  induction ms as [|[id name] ms IH]; intros tf tr w Hw.
  - exact Hw.
  - rewrite main_loop_step. cbv zeta.
    pose proof (Hpop _ (Hsay (MetalHeader name id) w Hw)) as H1.
    destruct (hd None (faults (db w))) as [n|]; [exact H1|].
    destruct (select_price_data id (db w)) as [|r df].
    + apply IH. apply Hsay, H1.
    + pose proof (Hfeat (build_features ln sqrt pad (r :: df)) _ H1) as H2.
      destruct (upsert_technical_features _ _) as [w2 [nf|]]; [|exact H2].
      cbn [fst] in H2.
      pose proof (Hrisk (build_features ln sqrt pad (r :: df)) w2 H2) as H3.
      destruct (upsert_risk_events _ _) as [w3 [nr|]]; [|exact H3].
      cbn [fst] in H3. apply IH. apply Hsay, Hsay, H3.
Qed.

Lemma main_run (w : World) :
  main ln sqrt pad w
  = match hd None (faults (db w)) with
    | Some _ => (pop_fault (say Banner w), Raised)
    | None =>
        match main_loop ln sqrt pad (select_metals (db w)) 0 0
                (pop_fault (say Banner w)) with
        | (w', Raised) => (w', Raised)
        | (w', Returned totals) =>
            (say VerifyHints
               (say (TotalRisk (snd totals))
                  (say (TotalFeatures (fst totals)) (say Done w'))),
             Returned tt)
        end
    end.
Proof.
  unfold main, mbind, M_bind, bind, print, read_sql, say, pop_fault.
  cbn [db stdout].
  destruct (hd None (faults (db w))) as [n|]; [reflexivity|].
  change (select_metals (set_faults (tl (faults (db w))) (db w)))
    with (select_metals (db w)).
  destruct (main_loop _ _ _ _ _ _ _) as [w' [totals|]]; reflexivity.
Qed.

Lemma main_keeps (P : World -> Prop) :
  (forall m w, P w -> P (say m w)) ->
  (forall w, P w -> P (pop_fault w)) ->
  (forall df w, P w -> P (fst (upsert_technical_features df w))) ->
  (forall df w, P w -> P (fst (upsert_risk_events df w))) ->
  forall w, P w -> P (fst (main ln sqrt pad w)).
Proof.
  intros Hsay Hpop Hfeat Hrisk w Hw. rewrite main_run.
  pose proof (Hpop _ (Hsay Banner w Hw)) as H0.
  destruct (hd None (faults (db w))) as [n|]; [exact H0|].
  pose proof (main_loop_keeps P Hsay Hpop Hfeat Hrisk (select_metals (db w)) 0 0 _ H0)
    as H.
  destruct (main_loop _ _ _ _ _ _ _) as [w' [totals|]]; [|exact H].
  cbn [fst] in *. repeat apply Hsay. exact H.
Qed.

End Loop.

End DriverFacts.

(** ** What the writers persist *)

Module WriterFacts.

Lemma dropna_complete (df : list FeatRow) (r : FeatRow) :
  In r (dropna df) -> all_fields_present (feat r).
Proof.
  unfold dropna. intros H. apply filter_In in H. destruct H as [_ H].
  rewrite forallb_forall in H.
  assert (Hf : forall x, In x (feature_columns (feat r)) -> x <> NaN).
  { intros x Hx E. specialize (H x Hx). rewrite E in H. discriminate H. }
  unfold all_fields_present.
  repeat split; apply Hf; unfold feature_columns; cbn [In]; tauto.
Qed.

Lemma features_after_upsert (df : list FeatRow) (w : World) (k : Z * Z) (v : Features) :
  technical_features (db (fst (upsert_technical_features df w))) !! k = Some v ->
  technical_features (db w) !! k = Some v \/
  exists r, In r (dropna df) /\ feature_entry r = (k, v).
Proof.
  rewrite StoreFacts.upsert_technical_features_run. cbv zeta.
  destruct (fails _ _); cbn [fst db technical_features set_faults].
  - auto.
  - intros H. apply insert_all_origin in H. destruct H as [H|[_ H]]; [auto|].
    right. apply in_map_iff in H. destruct H as (r & Hr & Hin). eauto.
Qed.

Lemma features_after_risk (df : list FeatRow) (w : World) :
  technical_features (db (fst (upsert_risk_events df w)))
  = technical_features (db w).
Proof.
  rewrite StoreFacts.upsert_risk_events_run. cbv zeta.
  destruct (fails _ _); reflexivity.
Qed.

Lemma risk_after_upsert (df : list FeatRow) (w : World) (k : Z * Z) (v : RiskVals) :
  risk_events (db (fst (upsert_risk_events df w))) !! k = Some v ->
  risk_events (db w) !! k = Some v \/
  exists r, In r (build_risk_events df default_threshold) /\ risk_entry r = (k, v).
Proof.
  rewrite StoreFacts.upsert_risk_events_run. cbv zeta.
  destruct (fails _ _); cbn [fst db risk_events set_faults].
  - auto.
  - intros H. apply insert_all_origin in H. destruct H as [H|[_ H]]; [auto|].
    right. apply in_map_iff in H. destruct H as (r & Hr & Hin). eauto.
Qed.

Lemma risk_after_features (df : list FeatRow) (w : World) :
  risk_events (db (fst (upsert_technical_features df w)))
  = risk_events (db w).
Proof.
  rewrite StoreFacts.upsert_technical_features_run. cbv zeta.
  destruct (fails _ _); reflexivity.
Qed.

End WriterFacts.

(** C2.  A feature row is persisted only if every one of its twenty
    fields is present: whatever frame the writer is given, and for every
    run of the driver over every store, a row found in
    [technical_features] afterwards was there before or has no missing
    field. *)
Theorem only_complete_feature_rows_written (ln sqrt : Q -> Q) (pad : bool) :
  (forall (df : list FeatRow) (w : World) (k : Z * Z) (v : Features),
     technical_features (db (fst (upsert_technical_features df w))) !! k = Some v ->
     technical_features (db w) !! k = Some v \/ all_fields_present v) /\
  (forall (w : World) (k : Z * Z) (v : Features),
     technical_features (db (fst (main ln sqrt pad w))) !! k = Some v ->
     technical_features (db w) !! k = Some v \/ all_fields_present v).
Proof.
  assert (Hwriter : forall (df : list FeatRow) (w : World) k v,
            technical_features (db (fst (upsert_technical_features df w))) !! k = Some v ->
            technical_features (db w) !! k = Some v \/ all_fields_present v).
  { intros df w k v H.
    destruct (WriterFacts.features_after_upsert df w k v H) as [Hold|(r & Hin & Hr)].
    - left. exact Hold.
    - right. injection Hr as _ <-. apply (WriterFacts.dropna_complete df r Hin). }
  split; [exact Hwriter|].
  intros w0.
  apply (DriverFacts.main_keeps ln sqrt pad
           (fun w => forall k v,
              technical_features (db w) !! k = Some v ->
              technical_features (db w0) !! k = Some v \/ all_fields_present v)).
  - intros m w H. exact H.
  - intros w H. exact H.
  - intros df w H k v Hk.
    destruct (Hwriter df w k v Hk) as [Hold|Hnew]; [apply H, Hold|right; exact Hnew].
  - intros df w H k v Hk. rewrite WriterFacts.features_after_risk in Hk.
    apply H, Hk.
  - intros k v H. left. exact H.
Qed.

Lemma only_complete_feature_rows_written_witness :
  exists v,
    technical_features (db (fst (main stand_in stand_in true (sample_world []))))
      !! (1%Z, 49%Z) = Some v /\
    all_fields_present v.
Proof.
  eexists. split; [vm_compute; reflexivity|].
  match goal with
  | |- all_fields_present ?v =>
      destruct (proj2 (only_complete_feature_rows_written stand_in stand_in true)
                  (sample_world []) (1%Z, 49%Z) v) as [Hold|Hnew]
  end.
  - vm_compute. reflexivity.
  - unfold sample_world, sample_world_of in Hold.
    cbn [db technical_features risk_events] in Hold.
    rewrite lookup_empty in Hold. discriminate Hold.
  - exact Hnew.
Defined.

(** ** The fixed threshold *)

Module ThresholdFacts.

(** With the threshold -0.02 on the daily return, the flag of a row is
    decided by its [price_change_pct] against -2. *)
Lemma flag_from_pct (dr : fval) :
  F.le dr (Fin default_threshold) = F.le (F.mul dr (Fin 100)) (Fin (- 2)).
Proof.
  destruct dr as [| | |d]; try reflexivity.
  cbn [F.mul F.le]. unfold default_threshold.
  destruct (Qle_bool d (- (2 # 100))) eqn:E.
  - symmetry. apply Qle_bool_iff. apply Qle_bool_iff in E.
    rewrite Qred_correct. lra.
  - destruct (Qle_bool (Qred (d * 100)) (- 2)) eqn:E'; [|reflexivity].
    apply Qle_bool_iff in E'. rewrite Qred_correct in E'.
    assert (H : d <= - (2 # 100)) by lra.
    apply Qle_bool_iff in H. congruence.
Qed.

Lemma risk_batch_flag (df : list FeatRow) (r : RiskRow) :
  In r (build_risk_events df default_threshold) ->
  is_risk_event (risk_vals r)
  = F.le (price_change_pct (risk_vals r)) (Fin (- 2)).
Proof.
  unfold build_risk_events, risk_frame. intros H.
  apply filter_In in H. destruct H as [H _].
  apply in_map_iff in H. destruct H as ([i fr] & <- & _).
  cbn [risk_vals is_risk_event price_change_pct fst snd].
  apply flag_from_pct.
Qed.

End ThresholdFacts.

(** C10.  The pipeline classifies with the fixed threshold -0.02.  The
    risk writer, given any frame, either raises and leaves [risk_events]
    as it was, or returns the size of [build_risk_events df (-0.02)] and
    leaves [risk_events] with exactly the rows of that batch inserted
    where their key was free; and after every run of the driver over
    every store, each row of [risk_events] that was not there before has
    its flag set exactly when its daily return, in percent, is at most
    -2. *)
Theorem risk_threshold_is_fixed (ln sqrt : Q -> Q) (pad : bool) :
  (forall (df : list FeatRow) (w : World),
     let batch := build_risk_events df (- (2 # 100)) in
     let res := upsert_risk_events df w in
     (snd res = Raised /\ risk_events (db (fst res)) = risk_events (db w)) \/
     (snd res = Returned (List.length batch) /\
      risk_events (db (fst res))
      = insert_all (map risk_entry batch) (risk_events (db w)))) /\
  (forall (w : World) (k : Z * Z) (v : RiskVals),
     risk_events (db (fst (main ln sqrt pad w))) !! k = Some v ->
     risk_events (db w) !! k = Some v \/
     is_risk_event v = F.le (price_change_pct v) (Fin (- 2))).
Proof.
  split.
  - intros df w batch res. subst batch res.
    rewrite StoreFacts.upsert_risk_events_run. cbv zeta.
    change (- (2 # 100)) with default_threshold.
    destruct (fails _ _); [left|right]; split; reflexivity.
  - intros w0.
    apply (DriverFacts.main_keeps ln sqrt pad
             (fun w => forall k v,
                risk_events (db w) !! k = Some v ->
                risk_events (db w0) !! k = Some v \/
                is_risk_event v = F.le (price_change_pct v) (Fin (- 2)))).
    + intros m w H. exact H.
    + intros w H. exact H.
    + intros df w H k v Hk. rewrite WriterFacts.risk_after_features in Hk.
      apply H, Hk.
    + intros df w H k v Hk.
      destruct (WriterFacts.risk_after_upsert df w k v Hk) as [Hold|(r & Hin & Hr)].
      * apply H, Hold.
      * right. injection Hr as _ <-.
        apply (ThresholdFacts.risk_batch_flag df r Hin).
    + intros k v H. left. exact H.
Qed.

Lemma risk_threshold_is_fixed_witness :
  exists v,
    risk_events (db (fst (main stand_in stand_in true (sample_world []))))
      !! (1%Z, 1%Z) = Some v /\
    is_risk_event v = F.le (price_change_pct v) (Fin (- 2)).
Proof.
  eexists. split; [vm_compute; reflexivity|].
  match goal with
  | |- is_risk_event ?v = _ =>
      destruct (proj2 (risk_threshold_is_fixed stand_in stand_in true)
                  (sample_world []) (1%Z, 1%Z) v) as [Hold|Hnew]
  end.
  - vm_compute. reflexivity.
  - unfold sample_world, sample_world_of in Hold.
    cbn [db technical_features risk_events] in Hold.
    rewrite lookup_empty in Hold. discriminate Hold.
  - exact Hnew.
Defined.

(** ** Re-running the writers *)

Module RerunFacts.

Lemma world_eq (w : World) (e : Engine) :
  metals e = metals (db w) -> price_data e = price_data (db w) ->
  technical_features e = technical_features (db w) ->
  risk_events e = risk_events (db w) -> faults e = faults (db w) ->
  {| db := e; stdout := stdout w |} = w.
Proof.
  destruct w as [[m p t r f] out], e as [m' p' t' r' f'].
  cbn. intros -> -> -> -> ->. reflexivity.
Qed.

Lemma fails_none {R : Type} (records : list R) :
  records <> [] -> fails None records = false.
Proof. destruct records; [congruence|reflexivity]. Qed.

(** Without a fault scripted a writer leaves the script empty, however
    it ends. *)
Lemma upsert_features_faults (df : list FeatRow) (w : World) :
  faults (db w) = [] -> faults (db (fst (upsert_technical_features df w))) = [].
Proof.
  intros Hf. rewrite StoreFacts.upsert_technical_features_run. cbv zeta.
  rewrite Hf. destruct (fails _ _); reflexivity.
Qed.

Lemma upsert_risk_faults (df : list FeatRow) (w : World) :
  faults (db w) = [] -> faults (db (fst (upsert_risk_events df w))) = [].
Proof.
  intros Hf. rewrite StoreFacts.upsert_risk_events_run. cbv zeta.
  rewrite Hf. destruct (fails _ _); reflexivity.
Qed.

(** Without a fault scripted a writer returns the size of its batch when
    the batch has a row, and raises when it has none. *)
Lemma upsert_features_outcome (df : list FeatRow) (w : World) :
  faults (db w) = [] ->
  (dropna df <> [] ->
   snd (upsert_technical_features df w) = Returned (List.length (dropna df))) /\
  (dropna df = [] -> upsert_technical_features df w = (w, Raised)).
Proof.
  intros Hf. rewrite StoreFacts.upsert_technical_features_run. cbv zeta.
  rewrite Hf. cbn [hd tl]. split; intros H.
  - rewrite (fails_none _ H). reflexivity.
  - rewrite H. cbn [fails]. f_equal.
    apply world_eq; try reflexivity. symmetry. exact Hf.
Qed.

Lemma upsert_risk_outcome (df : list FeatRow) (w : World) :
  faults (db w) = [] ->
  (build_risk_events df default_threshold <> [] ->
   snd (upsert_risk_events df w)
   = Returned (List.length (build_risk_events df default_threshold))) /\
  (build_risk_events df default_threshold = [] ->
   upsert_risk_events df w = (w, Raised)).
Proof.
  intros Hf. rewrite StoreFacts.upsert_risk_events_run. cbv zeta.
  rewrite Hf. cbn [hd tl]. split; intros H.
  - rewrite (fails_none _ H). reflexivity.
  - rewrite H. cbn [fails]. f_equal.
    apply world_eq; try reflexivity. symmetry. exact Hf.
Qed.

(** With every key of its batch in the table and no fault scripted, the
    feature writer changes nothing. *)
Lemma upsert_features_present (df : list FeatRow) (w : World) :
  faults (db w) = [] ->
  (forall r, In r (dropna df) ->
             is_Some (technical_features (db w) !! fst (feature_entry r))) ->
  fst (upsert_technical_features df w) = w.
Proof.
  intros Hf Hkeys. rewrite StoreFacts.upsert_technical_features_run.
  cbv zeta. rewrite Hf. cbn [hd tl].
  destruct (fails None (dropna df)); cbn [fst];
    (apply world_eq; cbn; try reflexivity; try (symmetry; exact Hf)).
  apply insert_all_present. intros k v Hin.
  apply in_map_iff in Hin. destruct Hin as (r & Hr & Hin).
  specialize (Hkeys r Hin). rewrite Hr in Hkeys. exact Hkeys.
Qed.

Lemma upsert_risk_present (df : list FeatRow) (w : World) :
  faults (db w) = [] ->
  (forall r, In r (build_risk_events df default_threshold) ->
             is_Some (risk_events (db w) !! fst (risk_entry r))) ->
  fst (upsert_risk_events df w) = w.
Proof.
  intros Hf Hkeys. rewrite StoreFacts.upsert_risk_events_run.
  cbv zeta. rewrite Hf. cbn [hd tl].
  destruct (fails None (build_risk_events df default_threshold)); cbn [fst];
    (apply world_eq; cbn; try reflexivity; try (symmetry; exact Hf)).
  apply insert_all_present. intros k v Hin.
  apply in_map_iff in Hin. destruct Hin as (r & Hr & Hin).
  specialize (Hkeys r Hin). rewrite Hr in Hkeys. exact Hkeys.
Qed.

(** Without a fault scripted the outcome of a writer depends on its batch
    only. *)
Lemma upsert_features_same_outcome (df : list FeatRow) (w w2 : World) :
  faults (db w) = [] -> faults (db w2) = [] ->
  snd (upsert_technical_features df w2) = snd (upsert_technical_features df w).
Proof.
  intros Hf Hf2. rewrite !StoreFacts.upsert_technical_features_run.
  cbv zeta. rewrite Hf, Hf2. destruct (fails _ _); reflexivity.
Qed.

Lemma upsert_risk_same_outcome (df : list FeatRow) (w w2 : World) :
  faults (db w) = [] -> faults (db w2) = [] ->
  snd (upsert_risk_events df w2) = snd (upsert_risk_events df w).
Proof.
  intros Hf Hf2. rewrite !StoreFacts.upsert_risk_events_run.
  cbv zeta. rewrite Hf, Hf2. destruct (fails _ _); reflexivity.
Qed.

(** When a writer has returned, every key of its batch is in the table. *)
Lemma upsert_features_keys (df : list FeatRow) (w : World) (n : nat) :
  snd (upsert_technical_features df w) = Returned n ->
  forall r, In r (dropna df) ->
    is_Some (technical_features (db (fst (upsert_technical_features df w)))
               !! fst (feature_entry r)).
Proof.
  rewrite StoreFacts.upsert_technical_features_run. cbv zeta.
  destruct (fails _ _); [discriminate|].
  cbn [fst snd db technical_features]. intros _ r Hin.
  apply (insert_all_has_keys _ _ _ (snd (feature_entry r))).
  apply in_map_iff. exists r. split; [|exact Hin].
  destruct (feature_entry r). reflexivity.
Qed.

Lemma upsert_risk_keys (df : list FeatRow) (w : World) (n : nat) :
  snd (upsert_risk_events df w) = Returned n ->
  forall r, In r (build_risk_events df default_threshold) ->
    is_Some (risk_events (db (fst (upsert_risk_events df w)))
               !! fst (risk_entry r)).
Proof.
  rewrite StoreFacts.upsert_risk_events_run. cbv zeta.
  destruct (fails _ _); [discriminate|].
  cbn [fst snd db risk_events]. intros _ r Hin.
  apply (insert_all_has_keys _ _ _ (snd (risk_entry r))).
  apply in_map_iff. exists r. split; [|exact Hin].
  destruct (risk_entry r). reflexivity.
Qed.

(** A writer that returns, returns the size of its batch. *)
Lemma upsert_features_count (df : list FeatRow) (w : World) (n : nat) :
  snd (upsert_technical_features df w) = Returned n ->
  n = List.length (dropna df).
Proof.
  rewrite StoreFacts.upsert_technical_features_run. cbv zeta.
  destruct (fails _ _); cbn [snd]; congruence.
Qed.

Lemma upsert_risk_count (df : list FeatRow) (w : World) (n : nat) :
  snd (upsert_risk_events df w) = Returned n ->
  n = List.length (build_risk_events df default_threshold).
Proof.
  rewrite StoreFacts.upsert_risk_events_run. cbv zeta.
  destruct (fails _ _); cbn [snd]; congruence.
Qed.

(** When the batch has no row, every key of the batch is in any table. *)
Lemma keys_after {R K V : Type} `{Countable K} (batch : list R)
    (key : R -> K) (t : gmap K V) (o : outcome nat) :
  (forall n, o = Returned n -> forall r, In r batch -> is_Some (t !! key r)) ->
  (o = Raised -> batch = []) ->
  forall r, In r batch -> is_Some (t !! key r).
Proof.
  intros Hret Hraise r Hin. destruct o as [n|].
  - exact (Hret n eq_refl r Hin).
  - rewrite (Hraise eq_refl) in Hin. destruct Hin.
Qed.

End RerunFacts.

(** C3.  The writers are idempotent against the store.  Inserting a row
    whose key exists changes nothing and is not an error.  A writer that
    returns, returns the size of its batch, that is the rows attempted.
    And when no store fault is scripted: a writer returns when its batch
    has a row (with an empty batch the statement itself raises, in the
    first run as in the second, and changes nothing); running the two
    writers a second time over the same frame ends each of them as the
    first run ended it, with the same count, and leaves the world as the
    first run left it, so that nothing new is inserted. *)
Theorem writers_are_idempotent :
  (forall (r : FeatRow) (conn : Engine),
     is_Some (technical_features conn !! (metal_id (price r), date (price r))) ->
     insert_technical_features r conn = conn) /\
  (forall (r : RiskRow) (conn : Engine),
     is_Some (risk_events conn !! (risk_metal_id r, risk_date r)) ->
     insert_risk_events r conn = conn) /\
  (forall (df : list FeatRow) (w : World) (n : nat),
     (snd (upsert_technical_features df w) = Returned n ->
      n = List.length (dropna df)) /\
     (snd (upsert_risk_events df w) = Returned n ->
      n = List.length (build_risk_events df (- (2 # 100))))) /\
  (forall (df : list FeatRow) (w : World),
     faults (db w) = [] ->
     let first_feat := upsert_technical_features df w in
     let first_risk := upsert_risk_events df (fst first_feat) in
     let again_feat := upsert_technical_features df (fst first_risk) in
     let again_risk := upsert_risk_events df (fst again_feat) in
     (dropna df <> [] ->
      snd first_feat = Returned (List.length (dropna df))) /\
     (dropna df = [] -> first_feat = (w, Raised)) /\
     (build_risk_events df (- (2 # 100)) <> [] ->
      snd first_risk
      = Returned (List.length (build_risk_events df (- (2 # 100))))) /\
     (build_risk_events df (- (2 # 100)) = [] ->
      first_risk = (fst first_feat, Raised)) /\
     snd again_feat = snd first_feat /\
     snd again_risk = snd first_risk /\
     fst again_risk = fst first_risk).
Proof.
  split; [|split; [|split]].
  - intros r conn H. unfold insert_technical_features.
    rewrite on_conflict_present by exact H. destruct conn. reflexivity.
  - intros r conn H. unfold insert_risk_events.
    rewrite on_conflict_present by exact H. destruct conn. reflexivity.
  - intros df w n. split.
    + apply RerunFacts.upsert_features_count.
    + apply RerunFacts.upsert_risk_count.
  - intros df w Hf first_feat first_risk again_feat again_risk.
    pose proof (RerunFacts.upsert_features_faults df w Hf) as F1.
    fold first_feat in F1.
    pose proof (RerunFacts.upsert_risk_faults df (fst first_feat) F1) as F2.
    fold first_risk in F2.
    destruct (RerunFacts.upsert_features_outcome df w Hf) as [O1 E1].
    destruct (RerunFacts.upsert_risk_outcome df (fst first_feat) F1) as [O2 E2].
    fold first_feat in O1, E1. fold first_risk in O2, E2.
    assert (W3 : fst again_feat = fst first_risk).
    { apply RerunFacts.upsert_features_present; [exact F2|].
      unfold first_risk. rewrite WriterFacts.features_after_risk.
      apply (RerunFacts.keys_after (dropna df) (fun r => fst (feature_entry r))
               _ (snd first_feat)).
      - intros n Hn. exact (RerunFacts.upsert_features_keys df w n Hn).
      - intros Hr. destruct (dropna df) as [|r l] eqn:D; [reflexivity|].
        rewrite O1 in Hr by discriminate. discriminate Hr. }
    assert (W4 : fst again_risk = fst first_risk).
    { unfold again_risk. rewrite W3.
      apply RerunFacts.upsert_risk_present; [exact F2|].
      apply (RerunFacts.keys_after (build_risk_events df default_threshold)
               (fun r => fst (risk_entry r)) _ (snd first_risk)).
      - intros n Hn.
        exact (RerunFacts.upsert_risk_keys df (fst first_feat) n Hn).
      - intros Hr.
        destruct (build_risk_events df default_threshold) as [|r l] eqn:D;
          [reflexivity|].
        rewrite O2 in Hr by discriminate. discriminate Hr. }
    split; [exact O1|]. split; [exact E1|]. split; [exact O2|].
    split; [exact E2|]. split; [|split].
    + apply RerunFacts.upsert_features_same_outcome; [exact Hf|exact F2].
    + unfold again_risk. rewrite W3.
      apply RerunFacts.upsert_risk_same_outcome; [exact F1|exact F2].
    + exact W4.
Qed.

Lemma writers_are_idempotent_witness :
  faults (db (sample_world [])) = [] /\
  (let frame := build_features stand_in stand_in true zigzag_series in
   dropna frame <> [] /\
   snd (upsert_technical_features frame
          (fst (upsert_risk_events frame
                  (fst (upsert_technical_features frame (sample_world []))))))
   = Returned 1%nat).
Proof.
  split; [reflexivity|]. intros frame.
  assert (D : dropna frame <> []) by (vm_compute; discriminate).
  split; [exact D|].
  pose proof (proj2 (proj2 (proj2 writers_are_idempotent))
                frame (sample_world []) eq_refl) as H.
  cbv zeta in H. destruct H as (R1 & _ & _ & _ & R3 & _).
  rewrite R3, (R1 D). vm_compute. reflexivity.
Defined.

(** C7, as the code has it.  Each writer call is one transaction of its
    own: the feature writer leaves [risk_events] alone and either returns
    with every row of its batch inserted where the key was free, or
    raises with [technical_features] as it was; the risk writer does the
    same on [risk_events]; and a row that is in the store stays there to
    the end of the run, whatever happens to the writes that follow. *)
Theorem each_writer_is_one_transaction (ln sqrt : Q -> Q) (pad : bool) :
  (forall (df : list FeatRow) (w : World),
     let res := upsert_technical_features df w in
     risk_events (db (fst res)) = risk_events (db w) /\
     ((snd res = Returned (List.length (dropna df)) /\
       technical_features (db (fst res))
       = insert_all (map feature_entry (dropna df)) (technical_features (db w))) \/
      (snd res = Raised /\
       technical_features (db (fst res)) = technical_features (db w)))) /\
  (forall (df : list FeatRow) (w : World),
     let res := upsert_risk_events df w in
     let batch := build_risk_events df default_threshold in
     technical_features (db (fst res)) = technical_features (db w) /\
     ((snd res = Returned (List.length batch) /\
       risk_events (db (fst res))
       = insert_all (map risk_entry batch) (risk_events (db w))) \/
      (snd res = Raised /\
       risk_events (db (fst res)) = risk_events (db w)))) /\
  (forall (w : World) (k : Z * Z),
     (forall v, technical_features (db w) !! k = Some v ->
                technical_features (db (fst (main ln sqrt pad w))) !! k = Some v) /\
     (forall v, risk_events (db w) !! k = Some v ->
                risk_events (db (fst (main ln sqrt pad w))) !! k = Some v)).
Proof.
  split; [|split].
  - intros df w res. subst res.
    rewrite StoreFacts.upsert_technical_features_run. cbv zeta.
    destruct (fails _ _); (split; [reflexivity|]); [right|left];
      split; reflexivity.
  - intros df w res batch. subst res batch.
    rewrite StoreFacts.upsert_risk_events_run. cbv zeta.
    destruct (fails _ _); (split; [reflexivity|]); [right|left];
      split; reflexivity.
  - intros w0 k.
    apply (DriverFacts.main_keeps ln sqrt pad
             (fun w =>
                (forall v, technical_features (db w0) !! k = Some v ->
                           technical_features (db w) !! k = Some v) /\
                (forall v, risk_events (db w0) !! k = Some v ->
                           risk_events (db w) !! k = Some v))).
    + intros m w H. exact H.
    + intros w H. exact H.
    + intros df w [Ht Hr]. rewrite WriterFacts.risk_after_features.
      split; [|exact Hr]. intros v Hv.
      rewrite StoreFacts.upsert_technical_features_run. cbv zeta.
      destruct (fails _ _); cbn [fst db technical_features set_faults].
      * apply Ht, Hv.
      * apply insert_all_keeps, Ht, Hv.
    + intros df w [Ht Hr]. rewrite WriterFacts.features_after_risk.
      split; [exact Ht|]. intros v Hv.
      rewrite StoreFacts.upsert_risk_events_run. cbv zeta.
      destruct (fails _ _); cbn [fst db risk_events set_faults].
      * apply Hr, Hv.
      * apply insert_all_keeps, Hr, Hv.
    + split; intros v H; exact H.
Qed.

(** C7, as the specification has it, fails: when the two queries and the
    feature transaction of metal 1 succeed and its risk statement fails at
    the first row, the feature row of day 49 is in the store and none of
    the metal's risk rows is, although nothing was in the store before. *)
Lemma asset_writes_not_one_transaction :
  let w := sample_world [None; None; None; Some 0%nat] in
  let frame := build_features stand_in stand_in true zigzag_series in
  let w' := fst (main stand_in stand_in true w) in
  select_price_data 1 (db w) = zigzag_series /\
  ~ (asset_all_committed frame w' \/ asset_none_committed w w').
Proof.
  intros w frame w'. split; [vm_compute; reflexivity|].
  assert (Hkey : option_map (fun r => fst (risk_entry r))
                   (nth_error (build_risk_events frame default_threshold) 0)
                 = Some (1%Z, 1%Z)).
  { vm_compute. reflexivity. }
  assert (Hnone : risk_events (db w') !! (1%Z, 1%Z) = None).
  { vm_compute. reflexivity. }
  assert (Hsome : is_Some (technical_features (db w') !! (1%Z, 49%Z))).
  { vm_compute. eexists. reflexivity. }
  intros [[_ Hrisk]|[Hfeat _]].
  - destruct (nth_error (build_risk_events frame default_threshold) 0)
      as [r|] eqn:E; [|discriminate Hkey].
    cbn [option_map] in Hkey.
    assert (Hk : fst (risk_entry r) = (1%Z, 1%Z)) by congruence.
    specialize (Hrisk r (nth_error_In _ _ E)).
    rewrite Hk, Hnone in Hrisk. destruct Hrisk as [x Hx]. discriminate Hx.
  - rewrite Hfeat in Hsome. unfold w, sample_world, sample_world_of in Hsome.
    cbn [db technical_features] in Hsome. rewrite lookup_empty in Hsome.
    destruct Hsome as [x Hx]. discriminate Hx.
Qed.

(** ** All columns of a row *)

Lemma nth_error_build_features_rest
    (ln sqrt : Q -> Q) (pad : bool) (df : list PriceRow) (i : nat) (r : PriceRow) :
  nth_error df i = Some r ->
  exists fr,
    nth_error (build_features ln sqrt pad df) i = Some fr /\
    price fr = r /\
    log_return (feat fr)
      = at_ (map (np_log ln) (Pd.zip_with F.div (col_close df) (Pd.shift (col_close df)))) i /\
    sma_5 (feat fr) = at_ (Pd.rolling_mean 5 (col_close df)) i /\
    sma_10 (feat fr) = at_ (Pd.rolling_mean 10 (col_close df)) i /\
    sma_20 (feat fr) = at_ (Pd.rolling_mean 20 (col_close df)) i /\
    sma_50 (feat fr) = at_ (Pd.rolling_mean 50 (col_close df)) i /\
    bollinger_upper (feat fr)
      = at_ (fst (fst (fst (calculate_bollinger sqrt (col_close df) 20 2)))) i /\
    bollinger_lower (feat fr)
      = at_ (snd (fst (calculate_bollinger sqrt (col_close df) 20 2))) i /\
    macd_histogram (feat fr) = at_ (snd (calculate_macd (col_close df) 12 26 9)) i /\
    high_low_range (feat fr) = at_ (Pd.zip_with F.sub (col_high df) (col_low df)) i /\
    high_low_ratio (feat fr)
      = at_ (Pd.zip_with (fun h l => if F.gt l (Fin 0) then F.div h l else NaN)
               (col_high df) (col_low df)) i /\
    volume_sma_20 (feat fr) = at_ (Pd.rolling_mean 20 (col_volume df)) i.
Proof.
  intros H. unfold build_features.
  cbv beta zeta delta [calculate_bollinger calculate_macd]. cbv iota.
  rewrite nth_error_indexed, H. cbn [option_map Nat.add fst snd].
  eexists. split; [reflexivity|]. cbn [price feat].
  repeat split; reflexivity.
Qed.

Lemma build_features_row (ln sqrt : Q -> Q) (pad : bool) (df : list PriceRow)
    (i : nat) (fr : FeatRow) :
  nth_error (build_features ln sqrt pad df) i = Some fr ->
  exists r, nth_error df i = Some r.
Proof.
  intros H. destruct (nth_error df i) as [r|] eqn:E; [eauto|].
  apply nth_error_None in E.
  rewrite <- (length_build_features ln sqrt pad df) in E.
  apply nth_error_None in E. congruence.
Qed.

(** ** Simple moving averages *)

Module SmaFacts.

Lemma col_close_numbers (df : list PriceRow) :
  col_close df = map Fin (map close df).
Proof. unfold col_close, column. rewrite map_map. reflexivity. Qed.

Lemma fold_add_sum (qs : list Q) :
  forall a, exists t, fold_left F.add (map Fin qs) (Fin a) = Fin t /\ t == a + Qsum qs.
Proof.
  induction qs as [|q qs IH]; intros a; cbn [map fold_left Qsum fold_right].
  - exists a. split; [reflexivity|ring].
  - cbn [F.add]. destruct (IH (Qred (a + q))) as (t & Ht & Hs).
    exists t. split; [exact Ht|].
    rewrite Hs, Qred_correct. unfold Qsum. ring.
Qed.

(** Before [k] values are there the rolling mean is missing. *)
Lemma rolling_mean_short (k : nat) (s : Series) (i : nat) :
  (i < List.length s)%nat -> (S i < k)%nat ->
  at_ (Pd.rolling_mean k s) i = NaN.
Proof.
  intros Hi Hk. rewrite RollingFacts.at_rolling_mean by exact Hi.
  unfold Pd.window_full, Pd.window.
  rewrite length_firstn, length_skipn.
  replace ((Nat.min (S i - (S i - k)) (List.length s - (S i - k)) =? k)%nat)
    with false; [reflexivity|].
  symmetry. apply Nat.eqb_neq. lia.
Qed.

(** From then on, over numbers, it is their arithmetic mean. *)
Lemma rolling_mean_numbers (k : nat) (qs : list Q) (i : nat) :
  (1 <= k)%nat -> (k <= S i)%nat -> (i < List.length qs)%nat ->
  exists m, at_ (Pd.rolling_mean k (map Fin qs)) i = Fin m /\
            m == Qsum (last_k k i qs) / inject_Z (Z.of_nat k).
Proof.
  intros Hk Hki Hi.
  assert (Hlen : (i < List.length (map Fin qs))%nat) by (rewrite length_map; exact Hi).
  rewrite RollingFacts.at_rolling_mean by exact Hlen.
  assert (Hw : Pd.window k i (map Fin qs) = map Fin (last_k k i qs)).
  { unfold Pd.window, last_k. rewrite skipn_map, firstn_map.
    replace (S i - (S i - k))%nat with k by lia. reflexivity. }
  assert (Hfull : Pd.window_full k (Pd.window k i (map Fin qs)) = true).
  { unfold Pd.window_full.
    rewrite RollingFacts.length_window by assumption.
    rewrite Nat.eqb_refl, Hw. cbn [andb].
    apply forallb_forall. intros x Hx. apply in_map_iff in Hx.
    destruct Hx as (q & <- & _). reflexivity. }
  rewrite Hfull. unfold Pd.mean, Pd.fsum.
  rewrite (RollingFacts.length_window k i (map Fin qs)) by assumption.
  rewrite Hw. destruct (fold_add_sum (last_k k i qs) 0) as (t & -> & Ht).
  unfold F.of_nat. cbn [F.div]. rewrite (RollingFacts.count_nonzero k Hk).
  eexists. split; [reflexivity|].
  rewrite Qred_correct, Ht. field.
  intros H0. pose proof (RollingFacts.count_positive k Hk) as Hp.
  rewrite H0 in Hp. exact (Qlt_irrefl 0 Hp).
Qed.

Lemma sma_column (k : nat) (df : list PriceRow) (i : nat) :
  (1 <= k)%nat -> (i < List.length df)%nat ->
  is_window_mean k (map close df) i (at_ (Pd.rolling_mean k (col_close df)) i).
Proof.
  intros Hk Hi. unfold is_window_mean.
  destruct (S i <? k)%nat eqn:E.
  - apply Nat.ltb_lt in E. apply rolling_mean_short; [|exact E].
    unfold col_close, column. rewrite length_map. exact Hi.
  - apply Nat.ltb_ge in E. rewrite col_close_numbers.
    apply rolling_mean_numbers; [exact Hk|exact E|].
    rewrite length_map. exact Hi.
Qed.

End SmaFacts.

(** ** Rows that cannot be persisted *)

Module DropFacts.

Lemma dropna_columns (df : list FeatRow) (fr : FeatRow) (x : fval) :
  In fr (dropna df) -> In x (feature_columns (feat fr)) -> x <> NaN.
Proof.
  unfold dropna. intros H Hx E. apply filter_In in H. destruct H as [_ H].
  rewrite forallb_forall in H. specialize (H x Hx). rewrite E in H.
  discriminate H.
Qed.

Lemma filter_none {A : Type} (f : A -> bool) (l : list A) :
  (forall x, In x l -> f x = false) -> List.filter f l = [].
Proof.
  induction l as [|x l IH]; intros H; [reflexivity|]. cbn [List.filter].
  rewrite (H x (or_introl eq_refl)). apply IH. intros y Hy. apply H. right. exact Hy.
Qed.

Lemma length_filter_le {A : Type} (f : A -> bool) (l : list A) :
  (List.length (List.filter f l) <= List.length l)%nat.
Proof.
  induction l as [|x l IH]; [reflexivity|]. cbn [List.filter].
  destruct (f x); cbn [List.length]; lia.
Qed.

Lemma In_firstn_nth_error {A : Type} (n : nat) (l : list A) (x : A) :
  In x (firstn n l) -> exists i, (i < n)%nat /\ nth_error l i = Some x.
Proof.
  intros H. apply In_nth_error in H. destruct H as [i Hi].
  assert (Hlt : (i < List.length (firstn n l))%nat).
  { apply nth_error_Some. rewrite Hi. discriminate. }
  rewrite length_firstn in Hlt. exists i. split; [lia|].
  rewrite nth_error_firstn in Hi.
  replace (i <? n)%nat with true in Hi by (symmetry; apply Nat.ltb_lt; lia).
  exact Hi.
Qed.

Lemma sma_50_of_row (ln sqrt : Q -> Q) (pad : bool) (df : list PriceRow)
    (i : nat) (fr : FeatRow) :
  nth_error (build_features ln sqrt pad df) i = Some fr ->
  is_window_mean 50 (map close df) i (sma_50 (feat fr)).
Proof.
  intros Hfr. destruct (build_features_row _ _ _ _ _ _ Hfr) as [r Hr].
  assert (Hi : (i < List.length df)%nat).
  { apply nth_error_Some. rewrite Hr. discriminate. }
  destruct (nth_error_build_features_rest ln sqrt pad df i r Hr)
    as (fr' & Hfr' & _ & _ & _ & _ & _ & H50 & _).
  assert (fr' = fr) by congruence. subst fr'.
  rewrite H50. apply SmaFacts.sma_column; [lia|exact Hi].
Qed.

(** The first 49 rows of a frame have no [sma_50]. *)
Lemma sma_50_early (ln sqrt : Q -> Q) (pad : bool) (df : list PriceRow)
    (i : nat) (fr : FeatRow) :
  nth_error (build_features ln sqrt pad df) i = Some fr -> (i < 49)%nat ->
  sma_50 (feat fr) = NaN.
Proof.
  intros Hfr Hi. pose proof (sma_50_of_row ln sqrt pad df i fr Hfr) as H.
  unfold is_window_mean in H.
  replace (S i <? 50)%nat with true in H; [exact H|].
  symmetry. apply Nat.ltb_lt. lia.
Qed.

Lemma incomplete_without_sma_50 (fr : FeatRow) :
  sma_50 (feat fr) = NaN ->
  forallb F.notna (feature_columns (feat fr)) = false.
Proof.
  intros E. destruct (forallb F.notna (feature_columns (feat fr))) eqn:F;
    [|reflexivity].
  rewrite forallb_forall in F.
  assert (Hn : F.notna (sma_50 (feat fr)) = true).
  { apply F. unfold feature_columns. cbn [In]. tauto. }
  rewrite E in Hn. discriminate Hn.
Qed.

(** A series of fewer than 50 points has no complete feature row. *)
Lemma short_series_no_rows (ln sqrt : Q -> Q) (pad : bool) (df : list PriceRow) :
  (List.length df < 50)%nat -> dropna (build_features ln sqrt pad df) = [].
Proof.
  intros Hlen. unfold dropna. apply filter_none.
  intros fr Hin. apply In_nth_error in Hin. destruct Hin as [i Hi].
  apply incomplete_without_sma_50, (sma_50_early ln sqrt pad df i fr Hi).
  assert (H : (i < List.length (build_features ln sqrt pad df))%nat)
    by (apply nth_error_Some; rewrite Hi; discriminate).
  rewrite length_build_features in H. lia.
Qed.

End DropFacts.

(** ** Assets without prices, and the end of the run *)

Module SkipFacts.

Lemma insert_by_not_nil {A : Type} (key : A -> Z) (r : A) (l : list A) :
  insert_by key r l <> [].
Proof. destruct l as [|x l]; cbn; [|destruct (key r <=? key x)%Z]; discriminate. Qed.

(** The query of [load_price_data] selects nothing exactly for a metal
    without a row in [price_data]. *)
Lemma select_nothing (engine : Engine) (id : Z) :
  select_price_data id engine = [] <->
  (forall r, In r (price_data engine) -> metal_id r <> id).
Proof.
  unfold select_price_data. split.
  - intros H r Hin Hid.
    assert (Hf : In r (List.filter (fun r => (metal_id r =? id)%Z) (price_data engine))).
    { apply filter_In. split; [exact Hin|]. apply Z.eqb_eq, Hid. }
    destruct (List.filter _ (price_data engine)) as [|x l]; [contradiction|].
    cbn [order_by fold_right] in H.
    exact (insert_by_not_nil date x (fold_right (insert_by date) [] l) H).
  - intros H.
    assert (Hf : List.filter (fun r => (metal_id r =? id)%Z) (price_data engine) = []).
    { induction (price_data engine) as [|x l IH]; [reflexivity|].
      cbn [List.filter].
      destruct (metal_id x =? id)%Z eqn:E.
      - apply Z.eqb_eq in E. exfalso. apply (H x (or_introl eq_refl) E).
      - apply IH. intros r Hr. apply H. right. exact Hr. }
    rewrite Hf. reflexivity.
Qed.

Section Loop.

Variable ln : Q -> Q.
Variable sqrt : Q -> Q.
Variable pad : bool.






End Loop.

End SkipFacts.




(** ** Division by zero *)

(** C5 does not hold of the code.  On day 50 of [zero_volume_series] the
    volume of the day before is 0: [volume_change] there is plus
    infinity, which is not a missing value, so the row passes [dropna]
    and is written with the infinity in it. *)
Theorem zero_volume_gives_infinite_change (pad : bool) :
  Pd.pct_change pad [Fin 0; Fin 5] = [NaN; PInf] /\
  F.isna PInf = false /\
  exists v,
    technical_features
      (db (fst (main stand_in stand_in pad zero_volume_world)))
      !! (1%Z, 50%Z) = Some v /\
    volume_change v = PInf.
Proof.
  split; [destruct pad; reflexivity|].
  split; [reflexivity|].
  destruct pad; eexists; (split; [vm_compute; reflexivity|reflexivity]).
Qed.

(** With a pandas that pads in [pct_change], a missing volume on the day
    before does not make [volume_change] missing either: the last volume
    seen stands in for it. *)
Example padded_volume_change :
  Pd.pct_change true [Fin 5; NaN; Fin 7] = [NaN; Fin 0; Fin (2 # 5)] /\
  Pd.pct_change false [Fin 5; NaN; Fin 7] = [NaN; NaN; NaN].
Proof. split; reflexivity. Qed.

(** * Further properties *)

(** ** Simple moving averages of a row *)

(** X1.  The four simple moving averages of a row are missing until the
    window is full ([i < k - 1]) and are the arithmetic mean of the last
    [k] closes from then on. *)
Theorem sma_is_mean_of_last_closes
    (ln sqrt : Q -> Q) (pad : bool) (df : list PriceRow) (i : nat) (fr : FeatRow) :
  nth_error (build_features ln sqrt pad df) i = Some fr ->
  is_window_mean 5 (map close df) i (sma_5 (feat fr)) /\
  is_window_mean 10 (map close df) i (sma_10 (feat fr)) /\
  is_window_mean 20 (map close df) i (sma_20 (feat fr)) /\
  is_window_mean 50 (map close df) i (sma_50 (feat fr)).
Proof.
  intros Hfr. destruct (build_features_row _ _ _ _ _ _ Hfr) as [r Hr].
  assert (Hi : (i < List.length df)%nat).
  { apply nth_error_Some. rewrite Hr. discriminate. }
  destruct (nth_error_build_features_rest ln sqrt pad df i r Hr)
    as (fr' & Hfr' & _ & _ & H5 & H10 & H20 & H50 & _).
  assert (fr' = fr) by congruence. subst fr'.
  rewrite H5, H10, H20, H50.
  repeat split; apply SmaFacts.sma_column; (lia || exact Hi).
Qed.

Lemma sma_is_mean_of_last_closes_witness :
  exists fr,
    nth_error (build_features stand_in stand_in true zigzag_series) 4 = Some fr /\
    is_window_mean 5 (map close zigzag_series) 4 (sma_5 (feat fr)) /\
    is_window_mean 10 (map close zigzag_series) 4 (sma_10 (feat fr)).
Proof.
  eexists. split; [vm_compute; reflexivity|].
  match goal with
  | |- is_window_mean _ _ _ (sma_5 (feat ?fr)) /\ _ =>
      pose proof (sma_is_mean_of_last_closes stand_in stand_in true
                    zigzag_series 4 fr) as H
  end.
  destruct H as (H5 & H10 & _); [vm_compute; reflexivity|].
  split; assumption.
Defined.

(** ** Rows that are never persisted *)

(** X2.  The first 49 rows of a feature frame have no [sma_50] and are
    never in the batch the writer persists; so a series shorter than 50
    points yields no feature row at all, and a series of [n] points at
    most [n - 49]. *)
Theorem first_rows_never_persisted
    (ln sqrt : Q -> Q) (pad : bool) (df : list PriceRow) :
  let frame := build_features ln sqrt pad df in
  (forall i fr, nth_error frame i = Some fr -> (i < 49)%nat ->
                sma_50 (feat fr) = NaN /\ ~ In fr (dropna frame)) /\
  ((List.length df < 50)%nat -> dropna frame = []) /\
  (List.length (dropna frame) <= List.length df - 49)%nat.
Proof.
  intros frame. split; [|split].
  - intros i fr Hfr Hi.
    pose proof (DropFacts.sma_50_early ln sqrt pad df i fr Hfr Hi) as E.
    split; [exact E|].
    intros Hin. unfold dropna in Hin. apply filter_In in Hin.
    destruct Hin as [_ Hall].
    rewrite (DropFacts.incomplete_without_sma_50 fr E) in Hall.
    discriminate Hall.
  - apply DropFacts.short_series_no_rows.
  - unfold dropna. rewrite <- (firstn_skipn 49 frame) at 1.
    rewrite List.filter_app, length_app.
    rewrite (DropFacts.filter_none _ (firstn 49 frame)).
    + cbn [List.length Nat.add].
      etransitivity; [apply DropFacts.length_filter_le|].
      rewrite length_skipn. unfold frame. rewrite length_build_features. lia.
    + intros fr Hin. apply DropFacts.In_firstn_nth_error in Hin.
      destruct Hin as (i & Hi & Hfr).
      apply DropFacts.incomplete_without_sma_50,
        (DropFacts.sma_50_early ln sqrt pad df i fr Hfr Hi).
Qed.

Lemma first_rows_never_persisted_witness :
  exists fr,
    nth_error (build_features stand_in stand_in true zigzag_series) 4 = Some fr /\
    sma_50 (feat fr) = NaN /\
    (List.length sample_series < 50)%nat /\
    dropna (build_features stand_in stand_in true sample_series) = [].
Proof.
  eexists. split; [vm_compute; reflexivity|].
  split.
  - match goal with
    | |- sma_50 (feat ?fr) = NaN =>
        apply (proj1 (first_rows_never_persisted stand_in stand_in true
                        zigzag_series) 4%nat fr)
    end.
    + vm_compute. reflexivity.
    + lia.
  - assert (H : (List.length sample_series < 50)%nat) by (cbn; lia).
    split; [exact H|].
    apply (proj1 (proj2 (first_rows_never_persisted stand_in stand_in true
                           sample_series))).
    exact H.
Defined.

(** ** Missing volumes *)

Module VolumeFacts.

(** A rolling mean is missing wherever its window holds a missing value. *)
Lemma rolling_mean_missing (k : nat) (s : Series) (i j : nat) :
  (i < List.length s)%nat -> (j <= i)%nat -> (S i - k <= j)%nat ->
  at_ s j = NaN ->
  at_ (Pd.rolling_mean k s) i = NaN.
Proof.
  intros Hi Hji Hlo Hj. rewrite RollingFacts.at_rolling_mean by exact Hi.
  destruct (Pd.window_full k (Pd.window k i s)) eqn:E; [|reflexivity].
  exfalso. unfold Pd.window_full in E. apply andb_true_iff in E.
  destruct E as [Hlen Hall]. apply Nat.eqb_eq in Hlen.
  assert (Hk : (k <= S i)%nat).
  { unfold Pd.window in Hlen. rewrite length_firstn, length_skipn in Hlen. lia. }
  rewrite forallb_forall in Hall.
  assert (Hin : In (nth (j - (S i - k)) (Pd.window k i s) NaN) (Pd.window k i s)).
  { apply nth_In. rewrite Hlen. lia. }
  specialize (Hall _ Hin).
  rewrite RollingFacts.nth_window in Hall by lia.
  replace (S i - k + (j - (S i - k)))%nat with j in Hall by lia.
  rewrite Hj in Hall. discriminate Hall.
Qed.

End VolumeFacts.

(** X3.  A day stored without a volume leaves [volume_sma_20] missing on
    that day and on the nineteen days after it, and none of these rows is
    in the batch the writer persists. *)
Theorem missing_volume_drops_twenty_rows
    (ln sqrt : Q -> Q) (pad : bool) (df : list PriceRow)
    (j i : nat) (r : PriceRow) (fr : FeatRow) :
  nth_error df j = Some r -> volume r = None ->
  (j <= i)%nat -> (i < j + 20)%nat ->
  nth_error (build_features ln sqrt pad df) i = Some fr ->
  volume_sma_20 (feat fr) = NaN /\
  ~ In fr (dropna (build_features ln sqrt pad df)).
Proof.
  intros Hr Hvol Hji Hij Hfr.
  destruct (build_features_row _ _ _ _ _ _ Hfr) as [ri Hri].
  assert (Hi : (i < List.length df)%nat).
  { apply nth_error_Some. rewrite Hri. discriminate. }
  destruct (nth_error_build_features_rest ln sqrt pad df i ri Hri)
    as (fr' & Hfr' & _ & _ & _ & _ & _ & _ & _ & _ & _ & _ & _ & Hv).
  assert (fr' = fr) by congruence. subst fr'.
  assert (Hnan : volume_sma_20 (feat fr) = NaN).
  { rewrite Hv. apply (VolumeFacts.rolling_mean_missing 20 _ i j).
    - unfold col_volume, column. rewrite length_map. exact Hi.
    - exact Hji.
    - lia.
    - unfold col_volume. rewrite (at_column _ df j r Hr), Hvol. reflexivity. }
  split; [exact Hnan|].
  intros Hin. apply (DropFacts.dropna_columns _ fr (volume_sma_20 (feat fr)) Hin).
  - unfold feature_columns. cbn [In]. tauto.
  - exact Hnan.
Qed.

Lemma missing_volume_drops_twenty_rows_witness :
  exists r fr,
    nth_error gap_series 1 = Some r /\ volume r = None /\
    nth_error (build_features stand_in stand_in true gap_series) 2 = Some fr /\
    volume_sma_20 (feat fr) = NaN.
Proof.
  do 2 eexists. split; [reflexivity|]. split; [reflexivity|].
  split; [vm_compute; reflexivity|].
  match goal with
  | |- volume_sma_20 (feat ?fr) = NaN =>
      apply (missing_volume_drops_twenty_rows stand_in stand_in true
               gap_series 1 2 (sample_point 2 97 None) fr)
  end.
  - reflexivity.
  - reflexivity.
  - lia.
  - lia.
  - vm_compute. reflexivity.
Defined.

(** ** The range and the ratio of the day *)

(** X4.  [high_low_range] is always the number [high - low].
    [high_low_ratio] is [high / low] when the low is positive and missing
    otherwise, whatever the other rows hold; a row whose low is not
    positive is therefore never persisted. *)
Theorem high_low_columns
    (ln sqrt : Q -> Q) (pad : bool) (df : list PriceRow) (i : nat) (fr : FeatRow) :
  nth_error (build_features ln sqrt pad df) i = Some fr ->
  (exists v, high_low_range (feat fr) = Fin v /\
             v == high (price fr) - low (price fr)) /\
  (0 < low (price fr) ->
   exists v, high_low_ratio (feat fr) = Fin v /\
             v == high (price fr) / low (price fr)) /\
  (low (price fr) <= 0 ->
   high_low_ratio (feat fr) = NaN /\
   ~ In fr (dropna (build_features ln sqrt pad df))).
Proof.
  intros Hfr.
  destruct (build_features_row _ _ _ _ _ _ Hfr) as [r Hr].
  assert (Hi : (i < List.length df)%nat).
  { apply nth_error_Some. rewrite Hr. discriminate. }
  destruct (nth_error_build_features_rest ln sqrt pad df i r Hr)
    as (fr' & Hfr' & Hp & _ & _ & _ & _ & _ & _ & _ & _ & Hrange & Hratio & _).
  assert (fr' = fr) by congruence. subst fr'.
  assert (Hh : (i < List.length (col_high df))%nat)
    by (unfold col_high, column; rewrite length_map; exact Hi).
  assert (Hl : (i < List.length (col_low df))%nat)
    by (unfold col_low, column; rewrite length_map; exact Hi).
  rewrite PdFacts.at_zip_with in Hrange, Hratio by assumption.
  unfold col_high, col_low in Hrange, Hratio.
  rewrite !(at_column _ df i r Hr) in Hrange, Hratio.
  rewrite Hp. split; [|split].
  - rewrite Hrange. cbn. eexists. split; [reflexivity|].
    rewrite Qred_correct. ring.
  - intros Hpos. rewrite Hratio. cbn [F.gt F.lt].
    replace (F.Qltb 0 (low r)) with true.
    2:{ symmetry. unfold F.Qltb. apply negb_true_iff.
        destruct (Qle_bool (low r) 0) eqn:E; [|reflexivity].
        apply Qle_bool_iff in E. lra. }
    rewrite (RiskFacts.div_by_positive _ _ Hpos).
    eexists. split; [reflexivity|]. apply Qred_correct.
  - intros Hneg.
    assert (Hnan : high_low_ratio (feat fr) = NaN).
    { rewrite Hratio. cbn [F.gt F.lt].
      replace (F.Qltb 0 (low r)) with false; [reflexivity|].
      symmetry. unfold F.Qltb. apply negb_false_iff.
      apply Qle_bool_iff. exact Hneg. }
    split; [exact Hnan|]. intros Hin.
    apply (DropFacts.dropna_columns _ fr (high_low_ratio (feat fr)) Hin).
    + unfold feature_columns. cbn [In]. tauto.
    + exact Hnan.
Qed.

Lemma high_low_columns_witness :
  exists fr v,
    nth_error (build_features stand_in stand_in true sample_series) 0 = Some fr /\
    0 < low (price fr) /\
    high_low_ratio (feat fr) = Fin v /\ v == high (price fr) / low (price fr).
Proof.
  eexists.
  match goal with
  | |- exists v, nth_error _ _ = Some ?fr /\ _ =>
      pose proof (high_low_columns stand_in stand_in true sample_series 0 fr) as H
  end.
  destruct H as (_ & H & _); [vm_compute; reflexivity|].
  destruct H as (v & Hv & Hq); [vm_compute; reflexivity|].
  exists v. split; [vm_compute; reflexivity|].
  split; [vm_compute; reflexivity|]. split; [exact Hv|exact Hq].
Defined.

(** ** Returns *)

Module LogFacts.

Lemma at_log_return_next (ln : Q -> Q) (df : list PriceRow) (i : nat) (p c : PriceRow) :
  nth_error df i = Some p -> nth_error df (S i) = Some c ->
  at_ (map (np_log ln) (Pd.zip_with F.div (col_close df) (Pd.shift (col_close df)))) (S i)
  = np_log ln (F.div (Fin (close c)) (Fin (close p))).
Proof.
  intros Hp Hc.
  assert (Hlen : (S i < List.length (col_close df))%nat).
  { unfold col_close, column. rewrite length_map.
    apply nth_error_Some. rewrite Hc. discriminate. }
  unfold at_. rewrite (nth_indep _ NaN (np_log ln NaN)).
  2:{ rewrite length_map, PdFacts.length_zip_with
        by (symmetry; apply PdFacts.length_shift). exact Hlen. }
  rewrite map_nth. f_equal.
  change (at_ (Pd.zip_with F.div (col_close df) (Pd.shift (col_close df))) (S i)
          = F.div (Fin (close c)) (Fin (close p))).
  rewrite PdFacts.at_zip_with;
    [|exact Hlen|rewrite PdFacts.length_shift; exact Hlen].
  rewrite PdFacts.at_shift_S by exact Hlen. unfold col_close.
  rewrite (at_column _ df (S i) c Hc), (at_column _ df i p Hp). reflexivity.
Qed.

Lemma at_log_return_first (ln : Q -> Q) (df : list PriceRow) :
  at_ (map (np_log ln) (Pd.zip_with F.div (col_close df) (Pd.shift (col_close df)))) 0
  = NaN.
Proof. destruct df as [|r df]; reflexivity. Qed.

End LogFacts.

(** X5.  On the first row of a frame the daily return, the log return and
    the volume change are all missing.  On a later row whose previous
    close is positive the daily return is [close / previous close - 1];
    the log return is the logarithm of that ratio when the close is
    positive too, and minus infinity, which is not a missing value, when
    the close is 0. *)
Theorem returns_of_a_row
    (ln sqrt : Q -> Q) (pad : bool) (df : list PriceRow) :
  let frame := build_features ln sqrt pad df in
  (forall fr, nth_error frame 0 = Some fr ->
     daily_return (feat fr) = NaN /\ log_return (feat fr) = NaN /\
     volume_change (feat fr) = NaN) /\
  (forall i p c fr,
     nth_error df i = Some p -> nth_error df (S i) = Some c ->
     nth_error frame (S i) = Some fr ->
     0 < close p ->
     (exists d, daily_return (feat fr) = Fin d /\ d == close c / close p - 1) /\
     (0 < close c ->
      exists q, log_return (feat fr) = Fin (ln q) /\ q == close c / close p) /\
     (close c == 0 -> log_return (feat fr) = NInf)).
Proof.
  intros frame. split.
  - intros fr Hfr. destruct (build_features_row _ _ _ _ _ _ Hfr) as [r Hr].
    destruct (nth_error_build_features ln sqrt pad df 0 r Hr)
      as (fr1 & Hfr1 & _ & Hd & _ & _ & _ & _ & _ & _ & _ & Hv).
    destruct (nth_error_build_features_rest ln sqrt pad df 0 r Hr)
      as (fr2 & Hfr2 & _ & Hl & _).
    fold frame in Hfr1, Hfr2.
    assert (fr1 = fr) by congruence. assert (fr2 = fr) by congruence. subst.
    rewrite Hd, Hl, Hv, !ReturnFacts.pct_change_first, LogFacts.at_log_return_first.
    repeat split.
  - intros i p c fr Hp Hc Hfr Hpos.
    destruct (nth_error_build_features ln sqrt pad df (S i) c Hc)
      as (fr1 & Hfr1 & _ & Hd & _).
    destruct (nth_error_build_features_rest ln sqrt pad df (S i) c Hc)
      as (fr2 & Hfr2 & _ & Hl & _).
    fold frame in Hfr1, Hfr2.
    assert (fr1 = fr) by congruence. assert (fr2 = fr) by congruence. subst.
    rewrite Hd, Hl, (ReturnFacts.pct_change_next pad df i p c Hp Hc),
      (LogFacts.at_log_return_next ln df i p c Hp Hc),
      (RiskFacts.div_by_positive _ _ Hpos).
    split; [|split].
    + cbn. eexists. split; [reflexivity|]. rewrite !Qred_correct. ring.
    + intros Hc0. cbn [np_log].
      assert (Hq : 0 < Qred (close c / close p)).
      { rewrite Qred_correct. apply Qlt_shift_div_l; [exact Hpos|]. lra. }
      replace (F.Qltb (Qred (close c / close p)) 0) with false.
      2:{ symmetry. unfold F.Qltb. apply negb_false_iff, Qle_bool_iff. lra. }
      destruct (Qeq_bool (Qred (close c / close p)) 0) eqn:E.
      * apply Qeq_bool_iff in E. lra.
      * eexists. split; [reflexivity|]. apply Qred_correct.
    + intros Hc0. cbn [np_log].
      assert (Hq : Qred (close c / close p) == 0).
      { rewrite Qred_correct, Hc0. unfold Qdiv. ring. }
      replace (F.Qltb (Qred (close c / close p)) 0) with false.
      2:{ symmetry. unfold F.Qltb. apply negb_false_iff, Qle_bool_iff. lra. }
      apply Qeq_bool_iff in Hq. rewrite Hq. reflexivity.
Qed.

Lemma returns_of_a_row_witness :
  exists fr d,
    nth_error (build_features stand_in stand_in true sample_series) 1 = Some fr /\
    daily_return (feat fr) = Fin d /\ d == 97 / 100 - 1.
Proof.
  eexists.
  match goal with
  | |- exists d, nth_error _ _ = Some ?fr /\ _ =>
      pose proof (proj2 (returns_of_a_row stand_in stand_in true sample_series)
                    0%nat (sample_point 1 100 (Some 10))
                    (sample_point 2 97 (Some 12)) fr) as H
  end.
  destruct H as ((d & Hd & Hq) & _);
    [reflexivity|reflexivity|vm_compute; reflexivity|reflexivity|].
  exists d. split; [vm_compute; reflexivity|]. split; [exact Hd|exact Hq].
Defined.

(** ** Bollinger bands *)

Module BollingerFacts.

Lemma length_rolling_std (sqrt : Q -> Q) (k : nat) (s : Series) :
  List.length (rolling_std sqrt k s) = List.length s.
Proof. unfold rolling_std. rewrite length_map, length_seq. reflexivity. Qed.

Lemma at_rolling_std (sqrt : Q -> Q) (k : nat) (s : Series) (i : nat) :
  (i < List.length s)%nat ->
  at_ (rolling_std sqrt k s) i
  = if Pd.window_full k (Pd.window k i s)
    then np_sqrt sqrt (sample_var (Pd.window k i s)) else NaN.
Proof.
  intros H. unfold at_, rolling_std.
  apply nth_error_nth. rewrite nth_error_map.
  rewrite (nth_error_nth' _ 0%nat) by (rewrite length_seq; exact H).
  rewrite seq_nth by exact H. reflexivity.
Qed.

Lemma rolling_std_short (sqrt : Q -> Q) (k : nat) (s : Series) (i : nat) :
  (i < List.length s)%nat -> (S i < k)%nat ->
  at_ (rolling_std sqrt k s) i = NaN.
Proof.
  intros Hi Hk. rewrite at_rolling_std by exact Hi.
  unfold Pd.window_full, Pd.window.
  rewrite length_firstn, length_skipn.
  replace ((Nat.min (S i - (S i - k)) (List.length s - (S i - k)) =? k)%nat)
    with false; [reflexivity|].
  symmetry. apply Nat.eqb_neq. lia.
Qed.

(** The sample variance of at least two numbers is a number that is not
    negative. *)
Lemma sample_var_numbers (qs : list Q) :
  (2 <= List.length qs)%nat ->
  exists v, sample_var (map Fin qs) = Fin v /\ 0 <= v.
Proof.
  intros Hlen. unfold sample_var.
  assert (Hm : exists m, Pd.mean (map Fin qs) = Fin m).
  { unfold Pd.mean, Pd.fsum.
    destruct (SmaFacts.fold_add_sum qs 0) as (t & -> & _).
    unfold F.of_nat. cbn [F.div]. rewrite length_map.
    rewrite RollingFacts.count_nonzero by lia. eauto. }
  destruct Hm as [m ->].
  assert (Hsq : Forall is_nonneg
                  (map (fun x => F.mul (F.sub x (Fin m)) (F.sub x (Fin m)))
                       (map Fin qs))).
  { apply List.Forall_forall. intros x Hx. apply in_map_iff in Hx.
    destruct Hx as (y & <- & Hy). apply in_map_iff in Hy.
    destruct Hy as (q & <- & _). cbn. rewrite Qred_correct.
    set (d := Qred (q + - m)). nra. }
  destruct (RollingFacts.fold_add_nonneg _ Hsq 0 (Qle_refl 0)) as (t & Ht & Ht0).
  unfold Pd.fsum. rewrite Ht. rewrite length_map.
  unfold F.of_nat. cbn [F.div].
  rewrite RollingFacts.count_nonzero by lia.
  eexists. split; [reflexivity|]. rewrite Qred_correct.
  apply Qle_shift_div_l; [apply RollingFacts.count_positive; lia|]. lra.
Qed.

Lemma rolling_std_numbers (sqrt : Q -> Q) (k : nat) (qs : list Q) (i : nat) :
  (2 <= k)%nat -> (k <= S i)%nat -> (i < List.length qs)%nat ->
  exists sd, at_ (rolling_std sqrt k (map Fin qs)) i = Fin sd.
Proof.
  intros Hk Hki Hi.
  assert (Hlen : (i < List.length (map Fin qs))%nat) by (rewrite length_map; exact Hi).
  rewrite at_rolling_std by exact Hlen.
  assert (Hw : Pd.window k i (map Fin qs) = map Fin (last_k k i qs)).
  { unfold Pd.window, last_k. rewrite skipn_map, firstn_map.
    replace (S i - (S i - k))%nat with k by lia. reflexivity. }
  assert (Hwl : List.length (last_k k i qs) = k).
  { rewrite <- (length_map Fin), <- Hw.
    apply RollingFacts.length_window; assumption. }
  destruct (Pd.window_full k (Pd.window k i (map Fin qs))) eqn:E.
  - rewrite Hw. destruct (sample_var_numbers (last_k k i qs)) as (v & -> & Hv).
    { rewrite Hwl. exact Hk. }
    cbn [np_sqrt]. replace (F.Qltb v 0) with false; [eauto|].
    symmetry. unfold F.Qltb. apply negb_false_iff, Qle_bool_iff. exact Hv.
  - exfalso. unfold Pd.window_full in E. rewrite Hw, length_map, Hwl in E.
    rewrite Nat.eqb_refl in E. cbn [andb] in E.
    assert (forallb F.notna (map Fin (last_k k i qs)) = true).
    { apply forallb_forall. intros x Hx. apply in_map_iff in Hx.
      destruct Hx as (q & <- & _). reflexivity. }
    congruence.
Qed.

End BollingerFacts.

(** X6.  The Bollinger columns of a row are missing on the first nineteen
    rows.  From row 19 on the middle band is the number [sma_20] shows,
    the upper and lower bands are numbers at the same distance above and
    below it, and the width is [(upper - lower) / middle] whenever the
    middle band is not zero. *)
Theorem bollinger_bands_around_sma_20
    (ln sqrt : Q -> Q) (pad : bool) (df : list PriceRow) (i : nat) (fr : FeatRow) :
  nth_error (build_features ln sqrt pad df) i = Some fr ->
  ((i < 19)%nat ->
   bollinger_upper (feat fr) = NaN /\ bollinger_middle (feat fr) = NaN /\
   bollinger_lower (feat fr) = NaN /\ bollinger_width (feat fr) = NaN) /\
  ((19 <= i)%nat ->
   exists m u l,
     bollinger_middle (feat fr) = Fin m /\ sma_20 (feat fr) = Fin m /\
     bollinger_upper (feat fr) = Fin u /\ bollinger_lower (feat fr) = Fin l /\
     u - m == m - l /\
     (~ m == 0 ->
      exists w, bollinger_width (feat fr) = Fin w /\ w == (u - l) / m)).
Proof.
  intros Hfr. destruct (build_features_row _ _ _ _ _ _ Hfr) as [r Hr].
  assert (Hi : (i < List.length df)%nat).
  { apply nth_error_Some. rewrite Hr. discriminate. }
  destruct (nth_error_build_features ln sqrt pad df i r Hr)
    as (fr1 & Hfr1 & _ & _ & _ & _ & _ & _ & _ & Hmid & Hwidth & _).
  destruct (nth_error_build_features_rest ln sqrt pad df i r Hr)
    as (fr2 & Hfr2 & _ & _ & _ & _ & H20 & _ & Hup & Hlo & _).
  assert (fr1 = fr) by congruence. assert (fr2 = fr) by congruence. subst.
  unfold calculate_bollinger in Hmid, Hwidth, Hup, Hlo. cbn [fst snd] in *.
  set (mid := Pd.rolling_mean 20 (col_close df)) in *.
  set (std := rolling_std sqrt 20 (col_close df)) in *.
  assert (Lc : List.length (col_close df) = List.length df)
    by (unfold col_close, column; apply length_map).
  assert (Lm : List.length mid = List.length df)
    by (unfold mid; rewrite RollingFacts.length_rolling_mean; exact Lc).
  assert (Ls : List.length (map (F.mul (Fin 2)) std) = List.length df)
    by (unfold std; rewrite length_map, BollingerFacts.length_rolling_std; exact Lc).
  assert (Hstd : at_ (map (F.mul (Fin 2)) std) i = F.mul (Fin 2) (at_ std i)).
  { apply at_map. rewrite length_map in Ls. rewrite Ls. exact Hi. }
  assert (Eup : bollinger_upper (feat fr)
                = F.add (at_ mid i) (F.mul (Fin 2) (at_ std i))).
  { rewrite Hup, PdFacts.at_zip_with by lia. rewrite Hstd. reflexivity. }
  assert (Elo : bollinger_lower (feat fr)
                = F.sub (at_ mid i) (F.mul (Fin 2) (at_ std i))).
  { rewrite Hlo, PdFacts.at_zip_with by lia. rewrite Hstd. reflexivity. }
  assert (Ewd : bollinger_width (feat fr)
                = F.div (F.sub (bollinger_upper (feat fr)) (bollinger_lower (feat fr)))
                        (at_ mid i)).
  { rewrite Hwidth, PdFacts.at_zip_with.
    - rewrite PdFacts.at_zip_with.
      + rewrite Hup, Hlo. reflexivity.
      + rewrite PdFacts.length_zip_with; lia.
      + rewrite PdFacts.length_zip_with; lia.
    - rewrite PdFacts.length_zip_with; rewrite !PdFacts.length_zip_with; lia.
    - lia. }
  split.
  - intros Hshort.
    assert (Em : at_ mid i = NaN)
      by (apply SmaFacts.rolling_mean_short; [rewrite Lc; exact Hi|lia]).
    rewrite Ewd, Eup, Elo, Hmid, Em. repeat split.
  - intros Hfull.
    destruct (SmaFacts.rolling_mean_numbers 20 (map close df) i) as (m & Em & _);
      [lia|lia|rewrite length_map; exact Hi|].
    destruct (BollingerFacts.rolling_std_numbers sqrt 20 (map close df) i)
      as (sd & Esd); [lia|lia|rewrite length_map; exact Hi|].
    rewrite <- SmaFacts.col_close_numbers in Em, Esd.
    fold mid in Em. fold std in Esd.
    rewrite Ewd, Eup, Elo, Hmid, H20. fold mid. rewrite Em, Esd.
    cbn [F.mul F.add F.sub F.neg].
    exists m. do 2 eexists. repeat (split; [reflexivity|]).
    split.
    + rewrite !Qred_correct. ring.
    + intros Hm. cbn [F.div].
      destruct (Qeq_bool m 0) eqn:E; [apply Qeq_bool_iff in E; contradiction|].
      eexists. split; [reflexivity|].
      rewrite !Qred_correct. reflexivity.
Qed.

Lemma bollinger_bands_around_sma_20_witness :
  exists fr m u l,
    nth_error (build_features stand_in stand_in true zigzag_series) 19 = Some fr /\
    bollinger_middle (feat fr) = Fin m /\ sma_20 (feat fr) = Fin m /\
    bollinger_upper (feat fr) = Fin u /\ bollinger_lower (feat fr) = Fin l /\
    u - m == m - l.
Proof.
  eexists.
  match goal with
  | |- exists m u l, nth_error _ _ = Some ?fr /\ _ =>
      pose proof (bollinger_bands_around_sma_20 stand_in stand_in true
                    zigzag_series 19 fr) as H
  end.
  destruct H as (_ & H); [vm_compute; reflexivity|].
  destruct H as (m & u & l & Hm & Hs & Hu & Hl & Hd & _); [lia|].
  exists m, u, l. split; [vm_compute; reflexivity|].
  repeat (split; [assumption|]). exact Hd.
Defined.

(** ** Ranges of the exponential averages *)

Module RangeFacts.

Lemma alpha_unit (k : nat) : (1 <= k)%nat -> 0 <= Ewm.alpha k /\ Ewm.alpha k <= 1.
Proof.
  intros Hk. unfold Ewm.alpha.
  assert (Hp : 2 <= inject_Z (Z.of_nat k) + 1).
  { assert (H1 : 1 <= inject_Z (Z.of_nat k)).
    { unfold Qle, inject_Z. simpl. lia. }
    lra. }
  split.
  - apply Qle_shift_div_l; lra.
  - apply Qle_shift_div_r; lra.
Qed.

Lemma blend_between (a lo hi x prev e : Q) :
  0 <= a -> a <= 1 -> lo <= x -> x <= hi -> lo <= prev -> prev <= hi ->
  e == a * x + (1 - a) * prev ->
  lo <= e /\ e <= hi.
Proof. intros Ha0 Ha1 Hx0 Hx1 Hp0 Hp1 ->. split; nra. Qed.

Lemma follows_between (a lo hi : Q) :
  0 <= a -> a <= 1 ->
  forall prev xs es,
    ema_follows a prev xs es ->
    lo <= prev -> prev <= hi ->
    Forall (is_between lo hi) xs -> Forall (is_between lo hi) es.
Proof.
  intros Ha0 Ha1 prev xs es H.
  induction H as [|prev x e xs es He Hf IH]; intros Hp0 Hp1 Hxs; [constructor|].
  inversion Hxs as [|? ? Hx Hrest]; subst. cbn in Hx. destruct Hx as [Hx0 Hx1].
  destruct (blend_between a lo hi x prev e Ha0 Ha1 Hx0 Hx1 Hp0 Hp1 He) as [He0 He1].
  constructor; [split; assumption|]. apply IH; assumption.
Qed.

Lemma between_finite (lo hi : Q) (s : Series) :
  Forall (is_between lo hi) s -> Forall F.is_finite s.
Proof.
  intros H. induction H as [|x s Hx Hs IH]; constructor; [|exact IH].
  destruct x; try contradiction. exact I.
Qed.

(** An exponential average stays within the range of its observations. *)
Lemma mean_between (k : nat) (lo hi : Q) (s : Series) :
  (1 <= k)%nat ->
  Forall (is_between lo hi) s -> Forall (is_between lo hi) (Ewm.mean k s).
Proof.
  intros Hk Hs. destruct s as [|x0 s]; [constructor|].
  inversion Hs as [|? ? Hx0 Hrest]; subst.
  cbn [Ewm.mean]. constructor; [exact Hx0|].
  destruct x0 as [| | |x0]; try contradiction. destruct Hx0 as [H0 H1].
  destruct (alpha_unit k Hk) as [Ha0 Ha1].
  apply (follows_between (Ewm.alpha k) lo hi Ha0 Ha1 x0 s);
    [|exact H0|exact H1|exact Hrest].
  apply EwmFacts.go_follows, (between_finite lo hi), Hrest.
Qed.

Lemma sub_between (lo hi : Q) (a b : Series) :
  Forall (is_between lo hi) a -> Forall (is_between lo hi) b ->
  Forall (is_between (lo - hi) (hi - lo)) (Pd.zip_with F.sub a b).
Proof.
  intros Ha. revert b. induction Ha as [|x a Hx Ha IH]; intros b Hb; [constructor|].
  destruct Hb as [|y b Hy Hb]; [constructor|].
  unfold Pd.zip_with. cbn [combine map fst snd]. constructor.
  - destruct x, y; try contradiction. cbn. rewrite Qred_correct.
    cbn in Hx, Hy. lra.
  - apply IH. exact Hb.
Qed.

Lemma between_at (lo hi : Q) (s : Series) (i : nat) :
  Forall (is_between lo hi) s -> (i < List.length s)%nat ->
  exists q, at_ s i = Fin q /\ lo <= q /\ q <= hi.
Proof.
  intros H Hi. rewrite List.Forall_nth in H. specialize (H i NaN Hi).
  unfold at_. destruct (nth i s NaN) as [| | |q]; try contradiction.
  exists q. split; [reflexivity|exact H].
Qed.

Lemma between_col_close (lo hi : Q) (df : list PriceRow) :
  (forall r, In r df -> lo <= close r /\ close r <= hi) ->
  Forall (is_between lo hi) (col_close df).
Proof.
  intros H. unfold col_close, column. apply List.Forall_forall.
  intros x Hx. apply in_map_iff in Hx. destruct Hx as (r & <- & Hr).
  exact (H r Hr).
Qed.

End RangeFacts.

(** X7.  When every close of a series lies between [lo] and [hi], so do
    [ema_12] and [ema_26] on every row, and [macd] and [macd_signal] lie
    between [lo - hi] and [hi - lo]; all four are numbers. *)
Theorem exponential_averages_stay_in_range
    (ln sqrt : Q -> Q) (pad : bool) (df : list PriceRow) (lo hi : Q)
    (i : nat) (fr : FeatRow) :
  (forall r, In r df -> lo <= close r /\ close r <= hi) ->
  nth_error (build_features ln sqrt pad df) i = Some fr ->
  exists e12 e26 m s,
    ema_12 (feat fr) = Fin e12 /\ lo <= e12 /\ e12 <= hi /\
    ema_26 (feat fr) = Fin e26 /\ lo <= e26 /\ e26 <= hi /\
    macd (feat fr) = Fin m /\ lo - hi <= m /\ m <= hi - lo /\
    macd_signal (feat fr) = Fin s /\ lo - hi <= s /\ s <= hi - lo.
Proof.
  intros Hrange Hfr. destruct (build_features_row _ _ _ _ _ _ Hfr) as [r Hr].
  assert (Hi : (i < List.length df)%nat).
  { apply nth_error_Some. rewrite Hr. discriminate. }
  destruct (nth_error_build_features ln sqrt pad df i r Hr)
    as (fr1 & Hfr1 & _ & _ & H12 & H26 & _ & Hm & Hs & _).
  assert (fr1 = fr) by congruence. subst fr1.
  assert (Lc : List.length (col_close df) = List.length df)
    by (unfold col_close, column; apply length_map).
  pose proof (RangeFacts.between_col_close lo hi df Hrange) as Bc.
  pose proof (RangeFacts.mean_between 12 lo hi _ ltac:(lia) Bc) as B12.
  pose proof (RangeFacts.mean_between 26 lo hi _ ltac:(lia) Bc) as B26.
  pose proof (RangeFacts.sub_between lo hi _ _ B12 B26) as Bm.
  pose proof (RangeFacts.mean_between 9 _ _ _ ltac:(lia) Bm) as Bs.
  destruct (RangeFacts.between_at _ _ _ i B12) as (e12 & E12 & ? & ?).
  { rewrite EwmFacts.length_mean, Lc. exact Hi. }
  destruct (RangeFacts.between_at _ _ _ i B26) as (e26 & E26 & ? & ?).
  { rewrite EwmFacts.length_mean, Lc. exact Hi. }
  destruct (RangeFacts.between_at _ _ _ i Bm) as (m & Em & ? & ?).
  { rewrite PdFacts.length_zip_with; rewrite !EwmFacts.length_mean; lia. }
  destruct (RangeFacts.between_at _ _ _ i Bs) as (s & Es & ? & ?).
  { rewrite EwmFacts.length_mean, PdFacts.length_zip_with;
      rewrite !EwmFacts.length_mean; lia. }
  exists e12, e26, m, s.
  rewrite H12, H26, Hm, Hs. unfold calculate_macd. cbn [fst snd].
  rewrite E12, E26, Em, Es. repeat split; assumption.
Qed.

Lemma exponential_averages_stay_in_range_witness :
  exists fr e12 e26,
    nth_error (build_features stand_in stand_in true sample_series) 2 = Some fr /\
    ema_12 (feat fr) = Fin e12 /\ 97 <= e12 /\ e12 <= 100 /\
    ema_26 (feat fr) = Fin e26 /\ 97 <= e26 /\ e26 <= 100.
Proof.
  eexists.
  match goal with
  | |- exists e12 e26, nth_error _ _ = Some ?fr /\ _ =>
      pose proof (exponential_averages_stay_in_range stand_in stand_in true
                    sample_series 97 100 2 fr) as H
  end.
  destruct H as (e12 & e26 & m & s & H12 & ? & ? & H26 & ? & ? & _).
  - intros r Hr.
    repeat (destruct Hr as [<-|Hr]; [split; vm_compute; discriminate|]).
    destruct Hr.
  - vm_compute. reflexivity.
  - exists e12, e26. split; [vm_compute; reflexivity|].
    repeat (split; [assumption|]). assumption.
Defined.

(** ** MACD histogram *)

Module HistogramFacts.

Lemma finite_at (s : Series) (i : nat) :
  Forall F.is_finite s -> (i < List.length s)%nat -> exists q, at_ s i = Fin q.
Proof.
  intros H Hi. rewrite List.Forall_nth in H. specialize (H i NaN Hi).
  unfold at_. destruct (nth i s NaN) as [| | |q]; try contradiction. eauto.
Qed.

End HistogramFacts.

(** X8.  On every row [macd], [macd_signal] and [macd_histogram] are
    numbers and the histogram is [macd - macd_signal]; on the first row
    of a frame all three are 0. *)
Theorem macd_histogram_is_difference
    (ln sqrt : Q -> Q) (pad : bool) (df : list PriceRow) (i : nat) (fr : FeatRow) :
  nth_error (build_features ln sqrt pad df) i = Some fr ->
  exists m s h,
    macd (feat fr) = Fin m /\ macd_signal (feat fr) = Fin s /\
    macd_histogram (feat fr) = Fin h /\
    h == m - s /\
    (i = 0%nat -> m == 0 /\ s == 0 /\ h == 0).
Proof.
  intros Hfr. destruct (build_features_row _ _ _ _ _ _ Hfr) as [r Hr].
  assert (Hi : (i < List.length df)%nat).
  { apply nth_error_Some. rewrite Hr. discriminate. }
  destruct (nth_error_build_features ln sqrt pad df i r Hr)
    as (fr1 & Hfr1 & _ & _ & _ & _ & _ & Hm & Hs & _).
  destruct (nth_error_build_features_rest ln sqrt pad df i r Hr)
    as (fr2 & Hfr2 & _ & _ & _ & _ & _ & _ & _ & _ & Hh & _).
  assert (fr1 = fr) by congruence. assert (fr2 = fr) by congruence. subst.
  assert (Lc : List.length (col_close df) = List.length df)
    by (unfold col_close, column; apply length_map).
  destruct (MacdFacts.length_macd (col_close df) 12 26 9) as [Lm Ls].
  pose proof (MacdFacts.finite_macd (col_close df) 12 26 9
                (MacdFacts.finite_col_close df)) as Fm.
  unfold calculate_macd in Hm, Hs, Hh, Lm, Ls, Fm. cbn [fst snd] in *.
  set (mc := Pd.zip_with F.sub (Ewm.mean 12 (col_close df))
                               (Ewm.mean 26 (col_close df))) in *.
  pose proof (EwmFacts.mean_finite 9 mc Fm) as Fs.
  destruct (HistogramFacts.finite_at mc i Fm) as [m Em]; [lia|].
  destruct (HistogramFacts.finite_at _ i Fs) as [s Es]; [lia|].
  rewrite PdFacts.at_zip_with in Hh by lia. rewrite Em, Es in Hh.
  exists m, s. eexists. rewrite Hm, Hs, Hh, Em, Es. cbn [F.sub F.neg F.add].
  repeat (split; [reflexivity|]).
  split.
  - rewrite Qred_correct. ring.
  - intros ->. destruct df as [|r0 df']; [discriminate Hr|].
    assert (Em0 : at_ mc 0 = Fin (Qred (close r0 + - close r0))) by reflexivity.
    assert (Es0 : at_ (Ewm.mean 9 mc) 0 = at_ mc 0) by reflexivity.
    rewrite Es0 in Es. rewrite Em0 in Em, Es.
    injection Em as <-. injection Es as <-.
    rewrite !Qred_correct. repeat split; ring.
Qed.

Lemma macd_histogram_is_difference_witness :
  exists fr m s h,
    nth_error (build_features stand_in stand_in true sample_series) 0 = Some fr /\
    macd (feat fr) = Fin m /\ macd_signal (feat fr) = Fin s /\
    macd_histogram (feat fr) = Fin h /\ h == m - s /\ m == 0.
Proof.
  eexists.
  match goal with
  | |- exists m s h, nth_error _ _ = Some ?fr /\ _ =>
      pose proof (macd_histogram_is_difference stand_in stand_in true
                    sample_series 0 fr) as H
  end.
  destruct H as (m & s & h & Hm & Hs & Hh & Hd & H0); [vm_compute; reflexivity|].
  exists m, s, h. split; [vm_compute; reflexivity|].
  repeat (split; [assumption|]). apply H0. reflexivity.
Defined.

(** ** The threshold of the risk classifier *)

Module ThresholdMoveFacts.

Lemma filter_map_swap {A B : Type} (p : B -> bool) (f : A -> B) (l : list A) :
  List.filter p (map f l) = map f (List.filter (fun x => p (f x)) l).
Proof.
  induction l as [|x l IH]; [reflexivity|]. cbn [map List.filter].
  destruct (p (f x)); cbn [map]; rewrite IH; reflexivity.
Qed.

(** The rows [dropna] keeps do not depend on the threshold. *)
Lemma build_risk_events_rows (df : list FeatRow) (t : Q) :
  build_risk_events df t
  = map (risk_row (Pd.shift (column feat_close df)) t)
        (List.filter
           (fun ir => risk_complete
                        (risk_row (Pd.shift (column feat_close df)) 0 ir))
           (combine (seq 0 (List.length df)) df)).
Proof.
  unfold build_risk_events.
  assert (E : risk_frame df t
              = map (risk_row (Pd.shift (column feat_close df)) t)
                    (combine (seq 0 (List.length df)) df)) by reflexivity.
  rewrite E, filter_map_swap. reflexivity.
Qed.

Lemma le_monotone (x : fval) (t1 t2 : Q) :
  t1 <= t2 -> F.le x (Fin t1) = true -> F.le x (Fin t2) = true.
Proof.
  intros Ht. destruct x as [| | |q]; cbn; try (intros; assumption || reflexivity).
  intros H. apply Qle_bool_iff in H. apply Qle_bool_iff. lra.
Qed.

End ThresholdMoveFacts.

(** X9.  The threshold passed to [build_risk_events] decides the flag and
    nothing else: two thresholds give batches of the same length whose
    rows agree in every field but [is_risk_event], and a row flagged
    under a threshold is flagged under every higher one. *)
Theorem threshold_only_moves_the_flag (df : list FeatRow) (t1 t2 : Q) :
  List.length (build_risk_events df t1) = List.length (build_risk_events df t2) /\
  forall i r1 r2,
    nth_error (build_risk_events df t1) i = Some r1 ->
    nth_error (build_risk_events df t2) i = Some r2 ->
    risk_metal_id r1 = risk_metal_id r2 /\ risk_date r1 = risk_date r2 /\
    risk_close r1 = risk_close r2 /\
    risk_daily_return r1 = risk_daily_return r2 /\
    price_change_pct (risk_vals r1) = price_change_pct (risk_vals r2) /\
    previous_close (risk_vals r1) = previous_close (risk_vals r2) /\
    current_close (risk_vals r1) = current_close (risk_vals r2) /\
    (t1 <= t2 -> is_risk_event (risk_vals r1) = true ->
     is_risk_event (risk_vals r2) = true).
Proof.
  rewrite !ThresholdMoveFacts.build_risk_events_rows. split.
  - rewrite !length_map. reflexivity.
  - intros i r1 r2 H1 H2. rewrite nth_error_map in H1, H2.
    destruct (nth_error _ i) as [ir|]; [|discriminate H1].
    cbn [option_map] in H1, H2. injection H1 as <-. injection H2 as <-.
    cbn. repeat (split; [reflexivity|]).
    apply ThresholdMoveFacts.le_monotone.
Qed.

Lemma threshold_only_moves_the_flag_witness :
  let frame := build_features stand_in stand_in true sample_series in
  exists r1 r2,
    nth_error (build_risk_events frame (- (5 # 100))) 0 = Some r1 /\
    nth_error (build_risk_events frame (- (2 # 100))) 0 = Some r2 /\
    is_risk_event (risk_vals r1) = false /\
    is_risk_event (risk_vals r2) = true /\
    price_change_pct (risk_vals r1) = price_change_pct (risk_vals r2).
Proof.
  intros frame. do 2 eexists.
  split; [vm_compute; reflexivity|]. split; [vm_compute; reflexivity|].
  split; [reflexivity|]. split; [reflexivity|].
  match goal with
  | |- price_change_pct (risk_vals ?r1) = price_change_pct (risk_vals ?r2) =>
      pose proof (proj2 (threshold_only_moves_the_flag frame (- (5 # 100)) (- (2 # 100)))
                    0%nat r1 r2) as H
  end.
  destruct H as (_ & _ & _ & _ & H & _);
    [vm_compute; reflexivity|vm_compute; reflexivity|exact H].
Defined.

(** ** The report of a run *)

Module ReportFacts.

Lemma features_reported_app (a b : list Msg) :
  features_reported (a ++ b) = (features_reported a + features_reported b)%nat.
Proof.
  induction a as [|m a IH]; [reflexivity|].
  destruct m; cbn [app features_reported]; rewrite IH; lia.
Qed.

Lemma risk_reported_app (a b : list Msg) :
  risk_reported (a ++ b) = (risk_reported a + risk_reported b)%nat.
Proof.
  induction a as [|m a IH]; [reflexivity|].
  destruct m; cbn [app risk_reported]; rewrite IH; lia.
Qed.



Section Loop.

Variable ln : Q -> Q.
Variable sqrt : Q -> Q.
Variable pad : bool.


End Loop.

End ReportFacts.



(** X11.  A run never writes to the tables it reads: [metals] and
    [price_data] are after the run what they were before, however the run
    ends. *)
Theorem source_tables_are_read_only (ln sqrt : Q -> Q) (pad : bool) (w : World) :
  metals (db (fst (main ln sqrt pad w))) = metals (db w) /\
  price_data (db (fst (main ln sqrt pad w))) = price_data (db w).
Proof.
  apply (DriverFacts.main_keeps ln sqrt pad
           (fun w' => metals (db w') = metals (db w) /\
                      price_data (db w') = price_data (db w))).
  - intros m w' H. exact H.
  - intros w' H. exact H.
  - intros df w' H. rewrite StoreFacts.upsert_technical_features_run. cbv zeta.
    destruct (fails _ _); exact H.
  - intros df w' H. rewrite StoreFacts.upsert_risk_events_run. cbv zeta.
    destruct (fails _ _); exact H.
  - split; reflexivity.
Qed.


(** ** Loading a series *)

Module LoadFacts.

Lemma insert_by_perm {A : Type} (key : A -> Z) (r : A) (l : list A) :
  Permutation (insert_by key r l) (r :: l).
Proof.
  induction l as [|x l IH]; cbn [insert_by]; [reflexivity|].
  destruct (key r <=? key x)%Z; [reflexivity|].
  rewrite IH. apply perm_swap.
Qed.

Lemma order_by_perm {A : Type} (key : A -> Z) (l : list A) :
  Permutation (order_by key l) l.
Proof.
  induction l as [|x l IH]; [reflexivity|].
  cbn [order_by fold_right]. rewrite insert_by_perm.
  apply perm_skip. exact IH.
Qed.

Lemma insert_by_sorted {A : Type} (key : A -> Z) (r : A) (l : list A) :
  Sorted (fun a b => (key a <= key b)%Z) l ->
  Sorted (fun a b => (key a <= key b)%Z) (insert_by key r l).
Proof.
  induction 1 as [|x l Hs IH Hd]; cbn [insert_by].
  - repeat constructor.
  - destruct (key r <=? key x)%Z eqn:E.
    + apply Z.leb_le in E. repeat constructor; assumption.
    + apply Z.leb_gt in E. constructor; [exact IH|].
      destruct l as [|y l]; cbn [insert_by].
      * constructor. lia.
      * destruct (key r <=? key y)%Z; constructor; [lia|].
        inversion Hd; assumption.
Qed.

Lemma order_by_sorted {A : Type} (key : A -> Z) (l : list A) :
  Sorted (fun a b => (key a <= key b)%Z) (order_by key l).
Proof.
  induction l as [|x l IH]; [constructor|].
  cbn [order_by fold_right]. apply insert_by_sorted. exact IH.
Qed.

End LoadFacts.

(** X12.  [load_price_data] raises when its query raises.  Otherwise it
    answers [None] exactly when [price_data] holds no row of the metal,
    and else the rows of the metal, each once, in ascending order of
    date. *)
Theorem load_price_data_answers (id : Z) (w : World) :
  (forall n, hd None (faults (db w)) = Some n ->
             snd (load_price_data id w) = Raised) /\
  (hd None (faults (db w)) = None ->
   match snd (load_price_data id w) with
   | Raised => False
   | Returned None => forall r, In r (price_data (db w)) -> metal_id r <> id
   | Returned (Some df) =>
       df <> [] /\ Sorted by_date df /\
       Permutation df
         (List.filter (fun r => (metal_id r =? id)%Z) (price_data (db w)))
   end).
Proof.
  unfold load_price_data, mbind, M_bind, bind, read_sql, mret, M_ret, ret.
  split.
  - intros n ->. reflexivity.
  - intros ->.
    change (select_price_data id (set_faults (tl (faults (db w))) (db w)))
      with (select_price_data id (db w)).
    destruct (select_price_data id (db w)) as [|r df] eqn:E; cbn [snd].
    + apply SkipFacts.select_nothing. exact E.
    + rewrite <- E. split; [rewrite E; discriminate|]. split.
      * apply (LoadFacts.order_by_sorted date).
      * apply LoadFacts.order_by_perm.
Qed.

Lemma load_price_data_answers_witness :
  hd None (faults (db short_series_world)) = None /\
  exists df,
    snd (load_price_data 1 short_series_world) = Returned (Some df) /\
    Sorted by_date df.
Proof.
  split; [reflexivity|].
  pose proof (proj2 (load_price_data_answers 1 short_series_world) eq_refl) as H.
  assert (E : snd (load_price_data 1 short_series_world)
              = Returned (Some sample_series)) by (vm_compute; reflexivity).
  rewrite E in H. destruct H as (_ & Hs & _).
  exists sample_series. split; [exact E|exact Hs].
Defined.

(** ** RSI from the two averages *)

Module RsiFormFacts.

Lemma nonneg_numbers (s : Series) :
  Forall is_nonneg s -> exists qs, s = map Fin qs.
Proof.
  induction 1 as [|x s Hx Hs (qs & ->)]; [exists []; reflexivity|].
  destruct x as [| | |q]; try contradiction. exists (q :: qs). reflexivity.
Qed.

(** An average over a full window of numbers that are not negative is a
    number that is not negative. *)
Lemma rolling_mean_full_nonneg (k : nat) (s : Series) (i : nat) :
  (1 <= k)%nat -> (k <= S i)%nat -> (i < List.length s)%nat ->
  Forall is_nonneg s ->
  exists m, at_ (Pd.rolling_mean k s) i = Fin m /\ 0 <= m.
Proof.
  intros Hk Hki Hi Hs.
  pose proof (RollingFacts.rolling_mean_nonneg k s i Hk Hs Hi) as Hn.
  destruct (nonneg_numbers s Hs) as [qs ->].
  destruct (SmaFacts.rolling_mean_numbers k qs i Hk Hki) as (m & Em & _).
  { rewrite length_map in Hi. exact Hi. }
  rewrite Em in Hn |- *. exists m. split; [reflexivity|exact Hn].
Qed.

End RsiFormFacts.

(** X13.  [rsi_14] is missing on the first thirteen rows.  From row 13 on
    the average gain [g] and the average loss [l] of the row are numbers
    that are not negative; [rsi_14] is missing when both are 0 and is
    otherwise the number [100 * g / (g + l)]. *)
Theorem rsi_from_average_gain_and_loss
    (ln sqrt : Q -> Q) (pad : bool) (df : list PriceRow) (i : nat) (fr : FeatRow) :
  nth_error (build_features ln sqrt pad df) i = Some fr ->
  ((i < 13)%nat -> rsi_14 (feat fr) = NaN) /\
  ((13 <= i)%nat ->
   exists g l,
     at_ (rsi_gain (col_close df) 14) i = Fin g /\
     at_ (rsi_loss (col_close df) 14) i = Fin l /\
     0 <= g /\ 0 <= l /\
     (g + l == 0 -> rsi_14 (feat fr) = NaN) /\
     (0 < g + l ->
      exists v, rsi_14 (feat fr) = Fin v /\ v == 100 * g / (g + l))).
Proof.
  intros Hfr. destruct (build_features_row _ _ _ _ _ _ Hfr) as [r Hr].
  assert (Hi : (i < List.length df)%nat).
  { apply nth_error_Some. rewrite Hr. discriminate. }
  destruct (nth_error_build_features ln sqrt pad df i r Hr)
    as (fr1 & Hfr1 & _ & _ & _ & _ & Hrsi & _).
  assert (fr1 = fr) by congruence. subst fr1.
  assert (Lc : List.length (col_close df) = List.length df)
    by (unfold col_close, column; apply length_map).
  rewrite RsiFacts.at_calculate_rsi in Hrsi by (rewrite Lc; exact Hi).
  assert (Lg : List.length (rsi_gains (Pd.diff (col_close df))) = List.length df)
    by (rewrite RsiFacts.length_gains, RsiFacts.length_diff; exact Lc).
  assert (Ll : List.length (rsi_losses (Pd.diff (col_close df))) = List.length df)
    by (rewrite RsiFacts.length_losses, RsiFacts.length_diff; exact Lc).
  split.
  - intros Hshort. rewrite Hrsi. unfold rsi_gain.
    fold (rsi_gains (Pd.diff (col_close df))).
    rewrite SmaFacts.rolling_mean_short by lia. reflexivity.
  - intros Hfull.
    destruct (RsiFormFacts.rolling_mean_full_nonneg 14
                (rsi_gains (Pd.diff (col_close df))) i) as (g & Eg & Hg);
      [lia|lia|lia|apply RsiFacts.gains_nonneg, RsiFacts.diff_fin_or_nan|].
    destruct (RsiFormFacts.rolling_mean_full_nonneg 14
                (rsi_losses (Pd.diff (col_close df))) i) as (l & El & Hl);
      [lia|lia|lia|apply RsiFacts.losses_nonneg, RsiFacts.diff_fin_or_nan|].
    exists g, l. unfold rsi_gain, rsi_loss in Hrsi |- *.
    fold (rsi_gains (Pd.diff (col_close df))) in Hrsi |- *.
    fold (rsi_losses (Pd.diff (col_close df))) in Hrsi |- *.
    rewrite Eg, El in Hrsi.
    repeat (split; [reflexivity || assumption|]).
    rewrite Hrsi. cbn [F.div]. split.
    + intros Hz. assert (g == 0) by lra. assert (l == 0) by lra.
      replace (Qeq_bool l 0) with true by (symmetry; apply Qeq_bool_iff; assumption).
      replace (Qeq_bool g 0) with true by (symmetry; apply Qeq_bool_iff; assumption).
      reflexivity.
    + intros Hpos. destruct (Qeq_bool l 0) eqn:E0.
      * apply Qeq_bool_iff in E0.
        assert (Hgp : 0 < g) by lra.
        destruct (Qeq_bool g 0) eqn:Eg0; [apply Qeq_bool_iff in Eg0; lra|].
        unfold F.inf_of_sign.
        replace (F.Qltb 0 g) with true.
        2:{ symmetry. unfold F.Qltb. apply negb_true_iff.
            destruct (Qle_bool g 0) eqn:E; [|reflexivity].
            apply Qle_bool_iff in E. lra. }
        exists 100. split; [reflexivity|]. rewrite E0. field. lra.
      * apply Qeq_bool_neq in E0.
        assert (Hlp : 0 < l).
        { apply Qle_lt_or_eq in Hl. destruct Hl as [Hl|Hl]; [exact Hl|].
          exfalso. apply E0. symmetry. exact Hl. }
        assert (Hrs : 0 <= g / l) by (apply Qle_shift_div_l; lra).
        unfold rsi_of_rs. cbn [F.add].
        set (x := Qred (1 + Qred (g / l))).
        assert (Hx : x == 1 + g / l) by (unfold x; rewrite !Qred_correct; reflexivity).
        cbn [F.div].
        destruct (Qeq_bool x 0) eqn:Ex; [apply Qeq_bool_iff in Ex; lra|].
        cbn [F.sub F.neg F.add]. eexists. split; [reflexivity|].
        rewrite !Qred_correct, Hx. field. split; lra.
Qed.

Lemma rsi_from_average_gain_and_loss_witness :
  exists fr g l,
    nth_error (build_features stand_in stand_in true zigzag_series) 13 = Some fr /\
    at_ (rsi_gain (col_close zigzag_series) 14) 13 = Fin g /\
    at_ (rsi_loss (col_close zigzag_series) 14) 13 = Fin l /\
    0 <= g /\ 0 <= l.
Proof.
  eexists.
  match goal with
  | |- exists g l, nth_error _ _ = Some ?fr /\ _ =>
      pose proof (rsi_from_average_gain_and_loss stand_in stand_in true
                    zigzag_series 13 fr) as H
  end.
  destruct H as (_ & H); [vm_compute; reflexivity|].
  destruct H as (g & l & Hg & Hl & Hg0 & Hl0 & _); [lia|].
  exists g, l. split; [vm_compute; reflexivity|].
  repeat (split; [assumption|]). exact Hl0.
Defined.

(** ** No lookahead *)

Module CausalFacts.

Section Closure.

Context {A : Type}.
Implicit Types c : list A -> Series.

Lemma causal_at c (l more : list A) (i : nat) :
  Causal c -> (i < List.length l)%nat -> at_ (c (l ++ more)) i = at_ (c l) i.
Proof.
  intros [Hlen Hext] Hi. destruct (Hext l more) as [rest ->].
  unfold at_. apply app_nth1. rewrite Hlen. exact Hi.
Qed.

Lemma causal_column (f : A -> fval) : Causal (column f).
Proof.
  split.
  - intros l. unfold column. apply length_map.
  - intros l more. exists (column f more). unfold column. apply map_app.
Qed.

Lemma causal_map (g : fval -> fval) c : Causal c -> Causal (fun l => map g (c l)).
Proof.
  intros [Hlen Hext]. split.
  - intros l. rewrite length_map. apply Hlen.
  - intros l more. destruct (Hext l more) as [rest ->].
    exists (map g rest). apply map_app.
Qed.

Lemma combine_append {X Y : Type} (a : list X) (b : list Y) (ra : list X) (rb : list Y) :
  List.length a = List.length b ->
  combine (a ++ ra) (b ++ rb) = combine a b ++ combine ra rb.
Proof.
  revert b. induction a as [|x a IH]; intros b H; destruct b as [|y b];
    try discriminate H; [reflexivity|].
  cbn [app combine]. rewrite IH by (injection H as H; exact H). reflexivity.
Qed.

Lemma causal_zip_with (f : fval -> fval -> fval) c1 c2 :
  Causal c1 -> Causal c2 -> Causal (fun l => Pd.zip_with f (c1 l) (c2 l)).
Proof.
  intros [L1 E1] [L2 E2]. split.
  - intros l. rewrite PdFacts.length_zip_with; [apply L1|].
    rewrite L1, L2. reflexivity.
  - intros l more. destruct (E1 l more) as [r1 ->]. destruct (E2 l more) as [r2 ->].
    exists (Pd.zip_with f r1 r2). unfold Pd.zip_with.
    rewrite combine_append by (rewrite L1, L2; reflexivity).
    apply map_app.
Qed.

Lemma shift_app (a b : Series) : exists rest, Pd.shift (a ++ b) = Pd.shift a ++ rest.
Proof.
  destruct a as [|x a]; [exists (Pd.shift b); reflexivity|].
  destruct b as [|y b]; [exists []; rewrite !app_nil_r; reflexivity|].
  exists (List.last (x :: a) NaN :: removelast (y :: b)).
  unfold Pd.shift. cbn [app].
  change (x :: a ++ y :: b) with ((x :: a) ++ y :: b).
  rewrite removelast_app by discriminate.
  rewrite (app_removelast_last NaN (l := x :: a)) at 1 by discriminate.
  rewrite <- app_assoc. reflexivity.
Qed.

Lemma causal_shift c : Causal c -> Causal (fun l => Pd.shift (c l)).
Proof.
  intros [Hlen Hext]. split.
  - intros l. rewrite PdFacts.length_shift. apply Hlen.
  - intros l more. destruct (Hext l more) as [rest ->]. apply shift_app.
Qed.

Lemma ffill_from_app (a b : Series) :
  forall last, exists last',
    Pd.ffill_from last (a ++ b) = Pd.ffill_from last a ++ Pd.ffill_from last' b.
Proof.
  induction a as [|x a IH]; intros last; [exists last; reflexivity|].
  cbn [app Pd.ffill_from].
  destruct (IH (if F.isna x then last else x)) as [last' ->].
  exists last'. reflexivity.
Qed.

Lemma length_ffill (s : Series) : List.length (Pd.ffill s) = List.length s.
Proof.
  unfold Pd.ffill. generalize NaN. induction s as [|x s IH]; intros l; [reflexivity|].
  cbn [Pd.ffill_from List.length]. rewrite IH. reflexivity.
Qed.

Lemma causal_ffill c : Causal c -> Causal (fun l => Pd.ffill (c l)).
Proof.
  intros [Hlen Hext]. split.
  - intros l. rewrite length_ffill. apply Hlen.
  - intros l more. destruct (Hext l more) as [rest ->].
    unfold Pd.ffill. destruct (ffill_from_app (c l) rest NaN) as [last' ->]. eauto.
Qed.

Lemma causal_pct_change (pad : bool) c :
  Causal c -> Causal (fun l => Pd.pct_change pad (c l)).
Proof.
  intros Hc. unfold Pd.pct_change. destruct pad.
  - apply (causal_map (fun x => F.sub x (Fin 1))
             (fun l => Pd.zip_with F.div (Pd.ffill (c l)) (Pd.shift (Pd.ffill (c l))))).
    apply (causal_zip_with F.div (fun l => Pd.ffill (c l))
             (fun l => Pd.shift (Pd.ffill (c l)))).
    + apply causal_ffill, Hc.
    + apply (causal_shift (fun l => Pd.ffill (c l))), causal_ffill, Hc.
  - apply (causal_map (fun x => F.sub x (Fin 1))
             (fun l => Pd.zip_with F.div (c l) (Pd.shift (c l)))).
    apply (causal_zip_with F.div c (fun l => Pd.shift (c l))); [exact Hc|].
    apply causal_shift, Hc.
Qed.

Lemma window_app (k i : nat) (a b : Series) :
  (i < List.length a)%nat -> Pd.window k i (a ++ b) = Pd.window k i a.
Proof.
  intros Hi. unfold Pd.window. rewrite skipn_app, firstn_app.
  replace (S i - k - List.length a)%nat with 0%nat by lia.
  rewrite length_skipn. cbn [skipn].
  replace (S i - (S i - k) - (List.length a - (S i - k)))%nat with 0%nat by lia.
  cbn [firstn]. apply app_nil_r.
Qed.

Lemma rolling_app (k : nat) (h : Series -> fval) (a b : Series) :
  exists rest, rolling k h (a ++ b) = rolling k h a ++ rest.
Proof.
  unfold rolling. rewrite length_app, seq_app, map_app. eexists. f_equal.
  apply map_ext_in. intros i Hi. apply in_seq in Hi.
  rewrite window_app by lia. reflexivity.
Qed.

Lemma causal_rolling (k : nat) (h : Series -> fval) c :
  Causal c -> Causal (fun l => rolling k h (c l)).
Proof.
  intros [Hlen Hext]. split.
  - intros l. unfold rolling. rewrite length_map, length_seq. apply Hlen.
  - intros l more. destruct (Hext l more) as [rest ->]. apply rolling_app.
Qed.

Lemma go_app (a : Q) (s t : Series) :
  forall w o, exists w' o',
    Ewm.go a w o (s ++ t) = Ewm.go a w o s ++ Ewm.go a w' o' t.
Proof.
  induction s as [|x s IH]; intros w o; [exists w, o; reflexivity|].
  cbn [app Ewm.go].
  destruct (IH (fst (Ewm.step a w o x)) (snd (Ewm.step a w o x))) as (w' & o' & ->).
  exists w', o'. reflexivity.
Qed.

Lemma causal_ewm (k : nat) c : Causal c -> Causal (fun l => Ewm.mean k (c l)).
Proof.
  intros [Hlen Hext]. split.
  - intros l. rewrite EwmFacts.length_mean. apply Hlen.
  - intros l more. destruct (Hext l more) as [rest ->].
    destruct (c l) as [|x s]; [exists (Ewm.mean k rest); reflexivity|].
    cbn [app Ewm.mean].
    destruct (go_app (Ewm.alpha k) s rest x 1) as (w' & o' & ->). eauto.
Qed.

End Closure.

End CausalFacts.

Module LookaheadFacts.

Import CausalFacts.

Section Columns.

Variable ln : Q -> Q.
Variable sqrt : Q -> Q.
Variable pad : bool.

Lemma causal_close : Causal col_close.
Proof. apply (causal_column (fun r => Fin (close r))). Qed.

Lemma causal_high : Causal col_high.
Proof. apply (causal_column (fun r => Fin (high r))). Qed.

Lemma causal_low : Causal col_low.
Proof. apply (causal_column (fun r => Fin (low r))). Qed.

Lemma causal_volume : Causal col_volume.
Proof. apply (causal_column (fun r => F.of_null (volume r))). Qed.

Lemma causal_log_return :
  Causal (fun df => map (np_log ln)
                      (Pd.zip_with F.div (col_close df) (Pd.shift (col_close df)))).
Proof.
  apply (causal_map (np_log ln)
           (fun df => Pd.zip_with F.div (col_close df) (Pd.shift (col_close df)))).
  apply (causal_zip_with F.div col_close (fun df => Pd.shift (col_close df)));
    [apply causal_close|apply causal_shift, causal_close].
Qed.

Lemma causal_sma (k : nat) : Causal (fun df => Pd.rolling_mean k (col_close df)).
Proof. apply (causal_rolling k Pd.mean col_close), causal_close. Qed.

Lemma causal_volume_sma : Causal (fun df => Pd.rolling_mean 20 (col_volume df)).
Proof. apply (causal_rolling 20 Pd.mean col_volume), causal_volume. Qed.

Lemma causal_std (k : nat) : Causal (fun df => rolling_std sqrt k (col_close df)).
Proof.
  apply (causal_rolling k (fun w => np_sqrt sqrt (sample_var w)) col_close),
    causal_close.
Qed.

Lemma causal_band (f : fval -> fval -> fval) :
  Causal (fun df => Pd.zip_with f (Pd.rolling_mean 20 (col_close df))
                      (map (F.mul (Fin 2)) (rolling_std sqrt 20 (col_close df)))).
Proof.
  apply (causal_zip_with f (fun df => Pd.rolling_mean 20 (col_close df))
           (fun df => map (F.mul (Fin 2)) (rolling_std sqrt 20 (col_close df))));
    [apply causal_sma|].
  apply (causal_map (F.mul (Fin 2)) (fun df => rolling_std sqrt 20 (col_close df))),
    causal_std.
Qed.

Lemma causal_upper :
  Causal (fun df => fst (fst (fst (calculate_bollinger sqrt (col_close df) 20 2)))).
Proof. apply (causal_band F.add). Qed.

Lemma causal_middle :
  Causal (fun df => snd (fst (fst (calculate_bollinger sqrt (col_close df) 20 2)))).
Proof. apply (causal_sma 20). Qed.

Lemma causal_lower :
  Causal (fun df => snd (fst (calculate_bollinger sqrt (col_close df) 20 2))).
Proof. apply (causal_band F.sub). Qed.

Lemma causal_width :
  Causal (fun df => snd (calculate_bollinger sqrt (col_close df) 20 2)).
Proof.
  apply (causal_zip_with F.div
           (fun df => Pd.zip_with F.sub
                        (fst (fst (fst (calculate_bollinger sqrt (col_close df) 20 2))))
                        (snd (fst (calculate_bollinger sqrt (col_close df) 20 2))))
           (fun df => Pd.rolling_mean 20 (col_close df))); [|apply causal_sma].
  apply (causal_zip_with F.sub
           (fun df => fst (fst (fst (calculate_bollinger sqrt (col_close df) 20 2))))
           (fun df => snd (fst (calculate_bollinger sqrt (col_close df) 20 2))));
    [apply causal_upper|apply causal_lower].
Qed.

Lemma causal_diff : Causal (fun df => Pd.diff (col_close df)).
Proof.
  apply (causal_zip_with F.sub col_close (fun df => Pd.shift (col_close df)));
    [apply causal_close|apply causal_shift, causal_close].
Qed.

Lemma causal_rsi : Causal (fun df => calculate_rsi (col_close df) 14).
Proof.
  apply (causal_map rsi_of_rs
           (fun df => Pd.zip_with F.div (rsi_gain (col_close df) 14)
                        (rsi_loss (col_close df) 14))).
  apply (causal_zip_with F.div (fun df => rsi_gain (col_close df) 14)
           (fun df => rsi_loss (col_close df) 14)).
  - apply (causal_rolling 14 Pd.mean
             (fun df => rsi_gains (Pd.diff (col_close df)))).
    apply (causal_map (fun d => if F.gt d (Fin 0) then d else Fin 0)
             (fun df => Pd.diff (col_close df))), causal_diff.
  - apply (causal_rolling 14 Pd.mean
             (fun df => rsi_losses (Pd.diff (col_close df)))).
    apply (causal_map F.neg
             (fun df => Pd.where_ (fun d => F.lt d (Fin 0)) (Fin 0)
                          (Pd.diff (col_close df)))).
    apply (causal_map (fun d => if F.lt d (Fin 0) then d else Fin 0)
             (fun df => Pd.diff (col_close df))), causal_diff.
Qed.

Lemma causal_macd :
  Causal (fun df => fst (fst (calculate_macd (col_close df) 12 26 9))).
Proof.
  apply (causal_zip_with F.sub (fun df => Ewm.mean 12 (col_close df))
           (fun df => Ewm.mean 26 (col_close df)));
    apply causal_ewm, causal_close.
Qed.

Lemma causal_signal :
  Causal (fun df => snd (fst (calculate_macd (col_close df) 12 26 9))).
Proof.
  apply (causal_ewm 9 (fun df => fst (fst (calculate_macd (col_close df) 12 26 9)))),
    causal_macd.
Qed.

Lemma causal_histogram :
  Causal (fun df => snd (calculate_macd (col_close df) 12 26 9)).
Proof.
  apply (causal_zip_with F.sub
           (fun df => fst (fst (calculate_macd (col_close df) 12 26 9)))
           (fun df => snd (fst (calculate_macd (col_close df) 12 26 9))));
    [apply causal_macd|apply causal_signal].
Qed.

(** Two rows with the same prices and the same twenty columns are the
    same row. *)
Lemma row_ext (a b : FeatRow) :
  price a = price b ->
  daily_return (feat a) = daily_return (feat b) ->
  log_return (feat a) = log_return (feat b) ->
  sma_5 (feat a) = sma_5 (feat b) ->
  sma_10 (feat a) = sma_10 (feat b) ->
  sma_20 (feat a) = sma_20 (feat b) ->
  sma_50 (feat a) = sma_50 (feat b) ->
  ema_12 (feat a) = ema_12 (feat b) ->
  ema_26 (feat a) = ema_26 (feat b) ->
  bollinger_upper (feat a) = bollinger_upper (feat b) ->
  bollinger_middle (feat a) = bollinger_middle (feat b) ->
  bollinger_lower (feat a) = bollinger_lower (feat b) ->
  bollinger_width (feat a) = bollinger_width (feat b) ->
  rsi_14 (feat a) = rsi_14 (feat b) ->
  macd (feat a) = macd (feat b) ->
  macd_signal (feat a) = macd_signal (feat b) ->
  macd_histogram (feat a) = macd_histogram (feat b) ->
  high_low_range (feat a) = high_low_range (feat b) ->
  high_low_ratio (feat a) = high_low_ratio (feat b) ->
  volume_change (feat a) = volume_change (feat b) ->
  volume_sma_20 (feat a) = volume_sma_20 (feat b) ->
  a = b.
Proof.
  destruct a as [pa fa], b as [pb fb]. destruct fa, fb.
  cbn.
  intros. subst. reflexivity.
Qed.

End Columns.

End LookaheadFacts.

(** X14.  The feature frame looks at no later row: the row computed for a
    day is the same whatever days follow it in the series. *)
Theorem build_features_has_no_lookahead
    (ln sqrt : Q -> Q) (pad : bool) (df more : list PriceRow) (i : nat) :
  (i < List.length df)%nat ->
  nth_error (build_features ln sqrt pad (df ++ more)) i
  = nth_error (build_features ln sqrt pad df) i.
Proof.
  intros Hi.
  destruct (nth_error df i) as [r|] eqn:Hr.
  2:{ apply nth_error_None in Hr. lia. }
  assert (Hr' : nth_error (df ++ more) i = Some r).
  { rewrite nth_error_app1 by exact Hi. exact Hr. }
  destruct (nth_error_build_features ln sqrt pad df i r Hr)
    as (fr & Hfr & Hp & A1 & A2 & A3 & A4 & A5 & A6 & A7 & A8 & A9).
  destruct (nth_error_build_features_rest ln sqrt pad df i r Hr)
    as (fr0 & Hfr0 & _ & B1 & B2 & B3 & B4 & B5 & B6 & B7 & B8 & B9 & B10 & B11).
  assert (fr0 = fr) by (rewrite Hfr in Hfr0; injection Hfr0 as <-; reflexivity).
  subst fr0.
  destruct (nth_error_build_features ln sqrt pad (df ++ more) i r Hr')
    as (fr' & Hfr' & Hp' & A1' & A2' & A3' & A4' & A5' & A6' & A7' & A8' & A9').
  destruct (nth_error_build_features_rest ln sqrt pad (df ++ more) i r Hr')
    as (fr1 & Hfr1 & _ & B1' & B2' & B3' & B4' & B5' & B6' & B7' & B8' & B9'
        & B10' & B11').
  assert (fr1 = fr') by (rewrite Hfr' in Hfr1; injection Hfr1 as <-; reflexivity).
  subst fr1.
  rewrite Hfr, Hfr'. f_equal.
  rewrite (CausalFacts.causal_at _ df more i
             (CausalFacts.causal_pct_change pad col_close LookaheadFacts.causal_close) Hi)
    in A1'.
  rewrite (CausalFacts.causal_at _ df more i
             (CausalFacts.causal_ewm 12 col_close LookaheadFacts.causal_close) Hi) in A2'.
  rewrite (CausalFacts.causal_at _ df more i
             (CausalFacts.causal_ewm 26 col_close LookaheadFacts.causal_close) Hi) in A3'.
  rewrite (CausalFacts.causal_at _ df more i LookaheadFacts.causal_rsi Hi) in A4'.
  rewrite (CausalFacts.causal_at _ df more i LookaheadFacts.causal_macd Hi) in A5'.
  rewrite (CausalFacts.causal_at _ df more i LookaheadFacts.causal_signal Hi) in A6'.
  rewrite (CausalFacts.causal_at _ df more i (LookaheadFacts.causal_middle sqrt) Hi) in A7'.
  rewrite (CausalFacts.causal_at _ df more i (LookaheadFacts.causal_width sqrt) Hi) in A8'.
  rewrite (CausalFacts.causal_at _ df more i
             (CausalFacts.causal_pct_change pad col_volume LookaheadFacts.causal_volume) Hi)
    in A9'.
  rewrite (CausalFacts.causal_at _ df more i (LookaheadFacts.causal_log_return ln) Hi) in B1'.
  rewrite (CausalFacts.causal_at _ df more i (LookaheadFacts.causal_sma 5) Hi) in B2'.
  rewrite (CausalFacts.causal_at _ df more i (LookaheadFacts.causal_sma 10) Hi) in B3'.
  rewrite (CausalFacts.causal_at _ df more i (LookaheadFacts.causal_sma 20) Hi) in B4'.
  rewrite (CausalFacts.causal_at _ df more i (LookaheadFacts.causal_sma 50) Hi) in B5'.
  rewrite (CausalFacts.causal_at _ df more i (LookaheadFacts.causal_upper sqrt) Hi) in B6'.
  rewrite (CausalFacts.causal_at _ df more i (LookaheadFacts.causal_lower sqrt) Hi) in B7'.
  rewrite (CausalFacts.causal_at _ df more i LookaheadFacts.causal_histogram Hi) in B8'.
  rewrite (CausalFacts.causal_at _ df more i
             (CausalFacts.causal_zip_with F.sub col_high col_low
                LookaheadFacts.causal_high LookaheadFacts.causal_low) Hi) in B9'.
  rewrite (CausalFacts.causal_at _ df more i
             (CausalFacts.causal_zip_with
                (fun h l => if F.gt l (Fin 0) then F.div h l else NaN)
                col_high col_low
                LookaheadFacts.causal_high LookaheadFacts.causal_low) Hi) in B10'.
  rewrite (CausalFacts.causal_at _ df more i LookaheadFacts.causal_volume_sma Hi)
    in B11'.
  apply LookaheadFacts.row_ext.
  - rewrite Hp', Hp. reflexivity.
  - exact (eq_trans A1' (eq_sym A1)).
  - exact (eq_trans B1' (eq_sym B1)).
  - exact (eq_trans B2' (eq_sym B2)).
  - exact (eq_trans B3' (eq_sym B3)).
  - exact (eq_trans B4' (eq_sym B4)).
  - exact (eq_trans B5' (eq_sym B5)).
  - exact (eq_trans A2' (eq_sym A2)).
  - exact (eq_trans A3' (eq_sym A3)).
  - exact (eq_trans B6' (eq_sym B6)).
  - exact (eq_trans A7' (eq_sym A7)).
  - exact (eq_trans B7' (eq_sym B7)).
  - exact (eq_trans A8' (eq_sym A8)).
  - exact (eq_trans A4' (eq_sym A4)).
  - exact (eq_trans A5' (eq_sym A5)).
  - exact (eq_trans A6' (eq_sym A6)).
  - exact (eq_trans B8' (eq_sym B8)).
  - exact (eq_trans B9' (eq_sym B9)).
  - exact (eq_trans B10' (eq_sym B10)).
  - exact (eq_trans A9' (eq_sym A9)).
  - exact (eq_trans B11' (eq_sym B11)).
Qed.

Lemma build_features_has_no_lookahead_witness :
  (2 < List.length sample_series)%nat /\
  nth_error (build_features stand_in stand_in true
               (sample_series ++ [sample_point 4 50 None])) 2
  = nth_error (build_features stand_in stand_in true sample_series) 2.
Proof.
  assert (H : (2 < List.length sample_series)%nat) by (cbn; lia).
  split; [exact H|].
  apply build_features_has_no_lookahead. exact H.
Defined.

(** ** Short series *)


